(** * ML_Orchestrator execution engine: a shallow embedding

    The development follows the Python sources file by file:
    - [State]     : workflow_engine/state.py      (RedisStore)
    - [Scheduler] : workflow_engine/scheduler.py  (ScoredTask, PriorityQueueScheduler)
    - [Retry]     : workflow_engine/retry_tracker.py (RetryTracker)
    - [Worker]    : workflow_engine/worker_pool.py (WorkerPool)
    - [Manager]   : orchestrator_tools/workflow_manager.py (WorkflowManager)

    Python floats are modelled by exact rationals [Q]; numeric equality of
    floats ([==], [!=]) is [Qeq_bool], never Leibniz equality.  Every call
    to [time.time()] is an explicit argument of the function that makes it.
    Dictionaries whose keys are fixed by the code (task metadata, Mongo
    documents) are records whose optional keys are [option] fields; the
    Redis hash and sorted set, whose keys are data, are [gmap]s. *)

From Stdlib Require Import QArith Qminmax Qabs Qpower Lqa Sorted.
From stdpp Require Import gmap strings list pretty.

Local Open Scope Q_scope.

(** ** Small Python idioms *)

(** [a < b] on floats. *)
Definition Qlt_bool (a b : Q) : bool := negb (Qle_bool b a).

(** [d.get(k, dflt)] for an optional key. *)
Definition get {A} (o : option A) (dflt : A) : A :=
  match o with Some v => v | None => dflt end.

(** Equality of two optional dictionary entries, given equality on values. *)
Definition opt_eqb {A} (eqb : A -> A -> bool) (a b : option A) : bool :=
  match a, b with
  | Some x, Some y => eqb x y
  | None, None => true
  | _, _ => false
  end.

Fixpoint list_eqb {A} (eqb : A -> A -> bool) (a b : list A) : bool :=
  match a, b with
  | [], [] => true
  | x :: a', y :: b' => eqb x y && list_eqb eqb a' b'
  | _, _ => false
  end.

(** ** Task metadata

    The [task_meta] dictionary built by [WorkflowManager._enqueue_task] and
    extended in place by the worker and the retry tracker.  Values that are
    present are assumed to have the type the code expects of them. *)
Record TaskMeta := mkTaskMeta {
  tm_run_id : option string;
  tm_task_id : option string;
  tm_agent : option string;
  tm_action : option string;
  tm_params : option string;
  tm_depends_on : list string;
  tm_user_priority : option Q;
  tm_deadline_ts : option Q;
  tm_retries : option nat;
  tm_attempt : option nat;
  tm_last_error : option string;
  tm_retry_timestamp : option Q;
  tm_started_at : option Q;
  tm_completed_at : option Q;
  tm_failed_at : option Q;
  tm_runtime_s : option Q;
  tm_error : option string;
  tm_metadata : option string;
  tm_timestamp : option Q
}.

(** Python [dict.__eq__] on two task metadata dictionaries. *)
Definition TaskMeta_eqb (a b : TaskMeta) : bool :=
  opt_eqb String.eqb (tm_run_id a) (tm_run_id b)
  && opt_eqb String.eqb (tm_task_id a) (tm_task_id b)
  && opt_eqb String.eqb (tm_agent a) (tm_agent b)
  && opt_eqb String.eqb (tm_action a) (tm_action b)
  && opt_eqb String.eqb (tm_params a) (tm_params b)
  && list_eqb String.eqb (tm_depends_on a) (tm_depends_on b)
  && opt_eqb Qeq_bool (tm_user_priority a) (tm_user_priority b)
  && opt_eqb Qeq_bool (tm_deadline_ts a) (tm_deadline_ts b)
  && opt_eqb Nat.eqb (tm_retries a) (tm_retries b)
  && opt_eqb Nat.eqb (tm_attempt a) (tm_attempt b)
  && opt_eqb String.eqb (tm_last_error a) (tm_last_error b)
  && opt_eqb Qeq_bool (tm_retry_timestamp a) (tm_retry_timestamp b)
  && opt_eqb Qeq_bool (tm_started_at a) (tm_started_at b)
  && opt_eqb Qeq_bool (tm_completed_at a) (tm_completed_at b)
  && opt_eqb Qeq_bool (tm_failed_at a) (tm_failed_at b)
  && opt_eqb Qeq_bool (tm_runtime_s a) (tm_runtime_s b)
  && opt_eqb String.eqb (tm_error a) (tm_error b)
  && opt_eqb String.eqb (tm_metadata a) (tm_metadata b)
  && opt_eqb Qeq_bool (tm_timestamp a) (tm_timestamp b).

(** * workflow_engine/state.py *)
Module State.

(** What the Redis server holds under one namespace: the sorted set
    [retry_q] (member -> score) and the hash [ert] (field -> value). *)
Record RedisDb := mkRedisDb {
  retry_q : gmap string Q;
  ert : gmap string Q
}.

(** [self.r] is [None] when the connection test in [__init__] failed. *)
Record RedisStore := mkRedisStore {
  r : option RedisDb;
  namespace : string
}.

(** [f"{agent}:{action}"] *)
Definition ert_key (agent action : string) : string :=
  agent +:+ ":" +:+ action.

Definition zadd_retry (s : RedisStore) (task_id : string) (timestamp : Q)
  : bool * RedisStore :=
  match r s with
  | None => (false, s)
  | Some db =>
      (true,
       mkRedisStore
         (Some (mkRedisDb (<[task_id := timestamp]> (retry_q db)) (ert db)))
         (namespace s))
  end.

Definition remove_retry (s : RedisStore) (task_id : string)
  : bool * RedisStore :=
  match r s with
  | None => (false, s)
  | Some db =>
      match retry_q db !! task_id with
      | Some _ =>
          (true,
           mkRedisStore
             (Some (mkRedisDb (delete task_id (retry_q db)) (ert db)))
             (namespace s))
      | None => (false, s)
      end
  end.

(** A stored estimate is the decimal text of a float, hence a non-empty
    (truthy) string: [float(ert) if ert else default] takes the default
    only for a missing field. *)
Definition get_ert (s : RedisStore) (agent action : string) (default : Q)
  : Q :=
  match r s with
  | None => default
  | Some db =>
      match ert db !! ert_key agent action with
      | Some v => v
      | None => default
      end
  end.

Definition update_ert (s : RedisStore) (agent action : string)
  (runtime_seconds : Q) : bool * RedisStore :=
  match r s with
  | None => (false, s)
  | Some db =>
      let key := ert_key agent action in
      let old_ert := get_ert s agent action runtime_seconds in
      let new_ert := (7 # 10) * old_ert + (3 # 10) * runtime_seconds in
      (true,
       mkRedisStore
         (Some (mkRedisDb (retry_q db) (<[key := new_ert]> (ert db))))
         (namespace s))
  end.

End State.

(** * workflow_engine/scheduler.py *)
Module Scheduler.
Import State.

Record ScoredTask := mkScoredTask {
  score_of : Q;
  enqueue_time : Q;
  task_meta : TaskMeta
}.

(** [ScoredTask.__lt__] *)
Definition ScoredTask_lt (self other : ScoredTask) : bool :=
  if negb (Qeq_bool (score_of self) (score_of other))
  then Qlt_bool (score_of self) (score_of other)
  else Qlt_bool (enqueue_time self) (enqueue_time other).

(** The [__eq__] that [@dataclass] generates: the field tuples are equal. *)
Definition ScoredTask_eqb (self other : ScoredTask) : bool :=
  Qeq_bool (score_of self) (score_of other)
  && Qeq_bool (enqueue_time self) (enqueue_time other)
  && TaskMeta_eqb (task_meta self) (task_meta other).

(** The standard module [heapq], by its documented contract.  [heap] is
    the type of Python lists on which the heap invariant holds and
    [contents] is the list itself, in storage order; pushing adds one
    entry, popping removes an entry that no other entry is [<] than, and
    [heapify] rearranges a list in place. *)
Class HeapQ := {
  heap : Type;
  contents : heap -> list ScoredTask;
  heapify : list ScoredTask -> heap;
  heappush : heap -> ScoredTask -> heap;
  heappop : heap -> option (ScoredTask * heap);
  heapify_contents : forall l, contents (heapify l) ≡ₚ l;
  heappush_contents : forall h x, contents (heappush h x) ≡ₚ x :: contents h;
  heappop_empty : forall h, heappop h = None <-> contents h = [];
  heappop_contents : forall h x h',
    heappop h = Some (x, h') -> x :: contents h' ≡ₚ contents h;
  heappop_least : forall h x h',
    heappop h = Some (x, h') ->
    Forall (fun y => ScoredTask_lt y x = false) (contents h)
}.

(** One implementation of the contract, used to run the scheduler on
    concrete queues: an unordered list, from which a pop selects the
    first least entry. *)
Fixpoint extract_min (l : list ScoredTask)
  : option (ScoredTask * list ScoredTask) :=
  match l with
  | [] => None
  | x :: l' =>
      match extract_min l' with
      | None => Some (x, [])
      | Some (m, rest) =>
          if ScoredTask_lt m x then Some (m, x :: rest) else Some (x, l')
      end
  end.

Section WithHeap.
Context {HQ : HeapQ}.

Record SchedStats := mkSchedStats {
  tasks_enqueued : nat;
  tasks_dequeued : nat;
  current_queue_size : nat;
  avg_score : Q
}.

Record PriorityQueueScheduler := mkScheduler {
  α : Q;
  β : Q;
  γ : Q;
  sched_heap : heap;
  redis : RedisStore;
  stats : SchedStats
}.

(** The keys of [config] read by [PriorityQueueScheduler.__init__]. *)
Record SchedulerConfig := mkSchedulerConfig {
  cfg_alpha : option Q;
  cfg_beta : option Q;
  cfg_gamma : option Q
}.

(** [PriorityQueueScheduler.__init__]; [store] is the [RedisStore] it
    constructs and the heap starts as the empty list. *)
Definition init (config : SchedulerConfig) (store : RedisStore)
  : PriorityQueueScheduler :=
  mkScheduler (get (cfg_alpha config) 1) (get (cfg_beta config) 2)
    (get (cfg_gamma config) 3) (heapify []) store (mkSchedStats 0 0 0 0).

(** [PriorityQueueScheduler.score].  [now] is the value of [time.time()].
    A deadline of zero is falsy and counts as no deadline.  The [except]
    branch (fallback score 0.0) is not reachable on well-typed metadata:
    the only division is by [max(ert, 1.0)], which is at least one. *)
Definition score (self : PriorityQueueScheduler) (tm : TaskMeta) (now : Q)
  : Q :=
  let agent := get (tm_agent tm) "unknown"%string in
  let action := get (tm_action tm) "unknown"%string in
  let ert := get_ert (redis self) agent action 60 in
  let runtime_score := α self / Qmax ert 1 in
  let user_priority := get (tm_user_priority tm) (1 # 2) in
  let priority_score := β self * user_priority in
  let urgency :=
    match tm_deadline_ts tm with
    | Some deadline_ts =>
        if Qeq_bool deadline_ts 0 then 0
        else
          let time_remaining := Qmax (deadline_ts - now) 1 in
          1 / time_remaining
    | None => 0
    end in
  let urgency_score := γ self * urgency in
  - (runtime_score + priority_score + urgency_score).

Definition sum_scores (l : list ScoredTask) : Q :=
  foldr (fun t acc => score_of t + acc) 0 l.

Definition mean_score (h : heap) : Q :=
  match contents h with
  | [] => 0
  | l => sum_scores l / inject_Z (Z.of_nat (length l))
  end.

(** [PriorityQueueScheduler.enqueue]; [t_score] and [t_enqueue] are the two
    readings of the clock, inside [score] and for [enqueue_time]. *)
Definition enqueue (self : PriorityQueueScheduler) (tm : TaskMeta)
  (t_score t_enqueue : Q) : bool * PriorityQueueScheduler :=
  let scored_task := mkScoredTask (score self tm t_score) t_enqueue tm in
  let h := heappush (sched_heap self) scored_task in
  (true,
   mkScheduler (α self) (β self) (γ self) h (redis self)
     (mkSchedStats (S (tasks_enqueued (stats self)))
        (tasks_dequeued (stats self))
        (length (contents h))
        (mean_score h))).

Definition _update_dequeue_stats (self : PriorityQueueScheduler) (h : heap)
  : PriorityQueueScheduler :=
  mkScheduler (α self) (β self) (γ self) h (redis self)
    (mkSchedStats (tasks_enqueued (stats self))
       (S (tasks_dequeued (stats self)))
       (length (contents h))
       (mean_score h)).

(** [task_meta.get("agent") == agent_filter] *)
Definition agent_matches (agent_filter : string) (t : ScoredTask) : bool :=
  match tm_agent (task_meta t) with
  | Some a => String.eqb a agent_filter
  | None => false
  end.

(** The loop [while self.heap: ... heappop ...] that separates the entries
    by agent, in the order in which they are popped.  A pop shortens the
    heap by one, so the length of the heap bounds the iterations. *)
Fixpoint separate (fuel : nat) (agent_filter : string) (h : heap)
  (matching_tasks remaining_tasks : list ScoredTask)
  : list ScoredTask * list ScoredTask :=
  match fuel with
  | O => (matching_tasks, remaining_tasks)
  | S fuel' =>
      match heappop h with
      | None => (matching_tasks, remaining_tasks)
      | Some (scored_task, h') =>
          if agent_matches agent_filter scored_task
          then separate fuel' agent_filter h'
                 (matching_tasks ++ [scored_task]) remaining_tasks
          else separate fuel' agent_filter h'
                 matching_tasks (remaining_tasks ++ [scored_task])
      end
  end.

(** [min(l, key=lambda t: t.score)]: the first entry of least score. *)
Fixpoint min_by_score (best : ScoredTask) (l : list ScoredTask)
  : ScoredTask :=
  match l with
  | [] => best
  | t :: l' =>
      if Qlt_bool (score_of t) (score_of best)
      then min_by_score t l'
      else min_by_score best l'
  end.

(** [for task in matching_tasks: if task != best_task: heappush(...)] *)
Fixpoint put_back (h : heap) (best_task : ScoredTask)
  (matching_tasks : list ScoredTask) : heap :=
  match matching_tasks with
  | [] => h
  | task :: rest =>
      if negb (ScoredTask_eqb task best_task)
      then put_back (heappush h task) best_task rest
      else put_back h best_task rest
  end.

(** [PriorityQueueScheduler.dequeue], returning the popped entry; the
    Python method returns its [task_meta], see [dequeue].  A filter that
    is [None] or the empty string is falsy: no filter. *)
Definition dequeue_entry (self : PriorityQueueScheduler)
  (agent_filter : option string)
  : option ScoredTask * PriorityQueueScheduler :=
  match contents (sched_heap self) with
  | [] => (None, self)
  | _ :: _ =>
      match agent_filter with
      | None | Some EmptyString =>
          match heappop (sched_heap self) with
          | Some (scored_task, h') =>
              (Some scored_task, _update_dequeue_stats self h')
          | None => (None, self)
          end
      | Some agent_filter =>
          let '(matching_tasks, remaining_tasks) :=
            separate (length (contents (sched_heap self))) agent_filter
              (sched_heap self) [] [] in
          let h := heapify remaining_tasks in
          match matching_tasks with
          | first :: others =>
              let best_task := min_by_score first others in
              let h' := put_back h best_task matching_tasks in
              (Some best_task, _update_dequeue_stats self h')
          | [] =>
              (None,
               mkScheduler (α self) (β self) (γ self) h (redis self)
                 (stats self))
          end
      end
  end.

Definition dequeue (self : PriorityQueueScheduler)
  (agent_filter : option string)
  : option TaskMeta * PriorityQueueScheduler :=
  let '(e, self') := dequeue_entry self agent_filter in
  (option_map task_meta e, self').

(** [PriorityQueueScheduler.remove_task] *)
Definition remove_task (self : PriorityQueueScheduler) (task_id : string)
  : bool * PriorityQueueScheduler :=
  let original_size := length (contents (sched_heap self)) in
  let h :=
    heapify
      (List.filter
         (fun task =>
            negb (opt_eqb String.eqb (tm_task_id (task_meta task))
                    (Some task_id)))
         (contents (sched_heap self))) in
  let removed := Nat.ltb (length (contents h)) original_size in
  (removed,
   mkScheduler (α self) (β self) (γ self) h (redis self)
     (if removed
      then mkSchedStats (tasks_enqueued (stats self))
             (tasks_dequeued (stats self))
             (length (contents h))
             (avg_score (stats self))
      else stats self)).

End WithHeap.

Arguments PriorityQueueScheduler : clear implicits.
Arguments PriorityQueueScheduler {HQ}.

End Scheduler.

(** * workflow_engine/retry_tracker.py *)
Module Retry.
Import State.

(** The keys of the [config] dictionary that [RetryTracker.__init__]
    reads with [config.get(key, default)]. *)
Record RetryConfig := mkRetryConfig {
  cfg_max_retries : option nat;
  cfg_backoff_base_s : option Q;
  cfg_backoff_max_s : option Q;
  cfg_poll_interval_s : option Q
}.

Record RetryStats := mkRetryStats {
  retries_scheduled : nat;
  retries_executed : nat;
  retries_abandoned : nat;
  current_pending : nat
}.

Record RetryTracker := mkRetryTracker {
  max_retries : nat;
  backoff_base_s : Q;
  backoff_max_s : Q;
  redis : RedisStore;
  is_running : bool;
  poll_interval : Q;
  stats : RetryStats
}.

(** [RetryTracker.__init__]; [store] is the [RedisStore] it constructs. *)
Definition init (config : RetryConfig) (store : RedisStore) : RetryTracker :=
  mkRetryTracker
    (get (cfg_max_retries config) 3%nat)
    (get (cfg_backoff_base_s config) 15)
    (get (cfg_backoff_max_s config) 300)
    store
    false
    (get (cfg_poll_interval_s config) 1)
    (mkRetryStats 0 0 0 0).

(** [zcard] of the delay queue, or 0 without Redis. *)
Definition _get_pending_count (self : RetryTracker) : nat :=
  match r (redis self) with
  | Some db => size (retry_q db)
  | None => 0%nat
  end.

(** [backoff_base_s * (2 ** current_retries)] capped by [backoff_max_s]. *)
Definition backoff_delay (self : RetryTracker) (current_retries : nat) : Q :=
  Qmin (backoff_base_s self * inject_Z (2 ^ Z.of_nat current_retries))
       (backoff_max_s self).

(** [RetryTracker.schedule]; the task metadata is mutated in place, so the
    updated dictionary is returned next to the tracker.  [now] is the
    value of [time.time()]. *)
Definition schedule (self : RetryTracker) (tm : TaskMeta)
  (error_context : option string) (now : Q)
  : bool * RetryTracker * TaskMeta :=
  let task_id := get (tm_task_id tm) "unknown"%string in
  let current_retries := get (tm_retries tm) 0%nat in
  if (max_retries self <=? current_retries)%nat then
    (false,
     mkRetryTracker (max_retries self) (backoff_base_s self)
       (backoff_max_s self) (redis self) (is_running self)
       (poll_interval self)
       (mkRetryStats (retries_scheduled (stats self))
          (retries_executed (stats self))
          (S (retries_abandoned (stats self)))
          (current_pending (stats self))),
     tm)
  else
    let delay := backoff_delay self current_retries in
    let retry_timestamp := now + delay in
    let tm' :=
      mkTaskMeta (tm_run_id tm) (tm_task_id tm) (tm_agent tm) (tm_action tm)
        (tm_params tm) (tm_depends_on tm) (tm_user_priority tm)
        (tm_deadline_ts tm)
        (Some (current_retries + 1)%nat)
        (tm_attempt tm)
        error_context
        (Some retry_timestamp)
        (tm_started_at tm) (tm_completed_at tm) (tm_failed_at tm)
        (tm_runtime_s tm) (tm_error tm) (tm_metadata tm) (tm_timestamp tm) in
    let '(success, store) := zadd_retry (redis self) task_id retry_timestamp in
    let self' :=
      mkRetryTracker (max_retries self) (backoff_base_s self)
        (backoff_max_s self) store (is_running self) (poll_interval self)
        (stats self) in
    if success then
      (true,
       mkRetryTracker (max_retries self) (backoff_base_s self)
         (backoff_max_s self) store (is_running self) (poll_interval self)
         (mkRetryStats (S (retries_scheduled (stats self)))
            (retries_executed (stats self))
            (retries_abandoned (stats self))
            (_get_pending_count self')),
       tm')
    else (false, self', tm').

(** [RetryTracker.cancel_retry] *)
Definition cancel_retry (self : RetryTracker) (task_id : string)
  : bool * RetryTracker :=
  let '(success, store) := remove_retry (redis self) task_id in
  let self' :=
    mkRetryTracker (max_retries self) (backoff_base_s self)
      (backoff_max_s self) store (is_running self) (poll_interval self)
      (stats self) in
  if success then
    (true,
     mkRetryTracker (max_retries self) (backoff_base_s self)
       (backoff_max_s self) store (is_running self) (poll_interval self)
       (mkRetryStats (retries_scheduled (stats self))
          (retries_executed (stats self))
          (retries_abandoned (stats self))
          (_get_pending_count self')))
  else (false, self').

End Retry.

(** * workflow_engine/worker_pool.py *)
Module Worker.
Import State.

(** What the HTTP call to the agent comes back with: a response, or an
    exception raised by the client (timeout, refused connection). *)
Inductive HttpOutcome :=
| Response (status : Z) (body : string)
| Raised (message : string).

Record WorkerStats := mkWorkerStats {
  tasks_executed : nat;
  tasks_succeeded : nat;
  tasks_failed : nat;
  total_runtime_s : Q;
  last_task_time : option Q;
  is_active : bool
}.

(** An event handed to the registered callbacks by [_emit_event]. *)
Record Event := mkEvent {
  ev_type : string;
  ev_task_id : option string;
  ev_run_id : option string;
  ev_agent : string;
  ev_task_meta : TaskMeta;
  ev_reason : option string;
  ev_result : option string;
  ev_error : option string
}.

(** The four readings of [time.time()] in [_execute_task], in order:
    [start_time], the reading for [runtime], the reading stored as
    [completed_at] or [failed_at], and the one inside
    [RetryTracker.schedule]. *)
Record Ticks := mkTicks {
  t_start : Q;
  t_runtime : Q;
  t_stamp : Q;
  t_schedule : Q
}.

Section WithHeap.
Context {HQ : Scheduler.HeapQ}.

Record WorkerPool := mkWorkerPool {
  agent : string;
  scheduler : Scheduler.PriorityQueueScheduler;
  retry_tracker : Retry.RetryTracker;
  session : bool;
  worker_stats : list WorkerStats;
  emitted : list Event
}.

Definition _emit_event (agent : string) (event_type : string)
  (tm : TaskMeta) (reason result error : option string) : Event :=
  mkEvent event_type (tm_task_id tm) (tm_run_id tm) agent tm
    reason result error.

(** [WorkerPool._call_agent]: the result, or the text of the exception. *)
Definition _call_agent (self : WorkerPool) (outcome : HttpOutcome)
  : string + string :=
  if negb (session self) then inr "HTTP session not initialized"%string
  else
    match outcome with
    | Response status body =>
        if (status =? 200)%Z then inl body
        else inr ("Agent returned " +:+ pretty status +:+ ": " +:+ body)
    | Raised message => inr message
    end.

(** [WorkerPool._is_workflow_cancelled].  [self.scheduler.redis] is a
    [RedisStore], which is truthy and has no attribute [redis_client]: the
    attribute access raises, and the handler around the whole body
    answers False. *)
Definition _is_workflow_cancelled (self : WorkerPool)
  (run_id : string) : bool := false.

Definition set_scheduler_redis (s : Scheduler.PriorityQueueScheduler)
  (store : RedisStore) : Scheduler.PriorityQueueScheduler :=
  Scheduler.mkScheduler (Scheduler.α s) (Scheduler.β s) (Scheduler.γ s)
    (Scheduler.sched_heap s) store (Scheduler.stats s).

(** [WorkerPool._execute_task].  Returns the pool and the task metadata,
    both of which the method mutates. *)
Definition _execute_task (self : WorkerPool) (tm : TaskMeta)
  (worker_id : nat) (outcome : HttpOutcome) (clock : Ticks)
  : WorkerPool * TaskMeta :=
  let run_id := get (tm_run_id tm) "unknown"%string in
  let start_time := t_start clock in
  if _is_workflow_cancelled self run_id then
    (mkWorkerPool (agent self) (scheduler self) (retry_tracker self)
       (session self) (worker_stats self)
       (emitted self ++
          [_emit_event (agent self) "TASK_CANCELLED" tm
             (Some "workflow_cancelled"%string) None None]),
     tm)
  else
    let tm1 :=
      mkTaskMeta (tm_run_id tm) (tm_task_id tm) (tm_agent tm) (tm_action tm)
        (tm_params tm) (tm_depends_on tm) (tm_user_priority tm)
        (tm_deadline_ts tm) (tm_retries tm) (tm_attempt tm)
        (tm_last_error tm) (tm_retry_timestamp tm)
        (Some start_time) (tm_completed_at tm) (tm_failed_at tm)
        (tm_runtime_s tm) (tm_error tm) (tm_metadata tm) (tm_timestamp tm) in
    let stats1 :=
      alter (fun s => mkWorkerStats (tasks_executed s) (tasks_succeeded s)
                        (tasks_failed s) (total_runtime_s s)
                        (Some start_time) (is_active s))
            worker_id (worker_stats self) in
    let started := _emit_event (agent self) "TASK_STARTED" tm1 None None None in
    let runtime := t_runtime clock - start_time in
    match _call_agent self outcome with
    | inl result =>
        let tm2 :=
          mkTaskMeta (tm_run_id tm1) (tm_task_id tm1) (tm_agent tm1)
            (tm_action tm1) (tm_params tm1) (tm_depends_on tm1)
            (tm_user_priority tm1) (tm_deadline_ts tm1) (tm_retries tm1)
            (tm_attempt tm1) (tm_last_error tm1) (tm_retry_timestamp tm1)
            (tm_started_at tm1) (Some (t_stamp clock)) (tm_failed_at tm1)
            (Some runtime) (tm_error tm1) (tm_metadata tm1)
            (tm_timestamp tm1) in
        let stats2 :=
          alter (fun s => mkWorkerStats (S (tasks_executed s))
                            (S (tasks_succeeded s)) (tasks_failed s)
                            (total_runtime_s s + runtime)
                            (last_task_time s) (is_active s))
                worker_id stats1 in
        let action := get (tm_action tm2) "unknown"%string in
        let store :=
          snd (update_ert (Scheduler.redis (scheduler self)) (agent self)
                 action runtime) in
        (mkWorkerPool (agent self)
           (set_scheduler_redis (scheduler self) store)
           (retry_tracker self) (session self) stats2
           (emitted self ++
              [started;
               _emit_event (agent self) "TASK_SUCCESS" tm2 None
                 (Some result) None]),
         tm2)
    | inr error_msg =>
        let stats2 :=
          alter (fun s => mkWorkerStats (S (tasks_executed s))
                            (tasks_succeeded s) (S (tasks_failed s))
                            (total_runtime_s s + runtime)
                            (last_task_time s) (is_active s))
                worker_id stats1 in
        let tm2 :=
          mkTaskMeta (tm_run_id tm1) (tm_task_id tm1) (tm_agent tm1)
            (tm_action tm1) (tm_params tm1) (tm_depends_on tm1)
            (tm_user_priority tm1) (tm_deadline_ts tm1) (tm_retries tm1)
            (tm_attempt tm1) (tm_last_error tm1) (tm_retry_timestamp tm1)
            (tm_started_at tm1) (tm_completed_at tm1)
            (Some (t_stamp clock)) (Some runtime) (Some error_msg)
            (tm_metadata tm1) (tm_timestamp tm1) in
        let failed :=
          _emit_event (agent self) "TASK_FAILED" tm2 None None
            (Some error_msg) in
        let '(_, tracker, tm3) :=
          Retry.schedule (retry_tracker self) tm2 (Some error_msg)
            (t_schedule clock) in
        (mkWorkerPool (agent self) (scheduler self) tracker (session self)
           stats2 (emitted self ++ [started; failed]),
         tm3)
    end.

End WithHeap.

Arguments WorkerPool {HQ}.

End Worker.

(** * orchestrator_tools/workflow_manager.py *)
Module Manager.
Import State.

(** [WorkflowStatus] and [TaskStatus]: the enumeration members are used
    through [.value], the lower-case strings below. *)
Definition WorkflowStatus_PENDING : string := "pending".
Definition WorkflowStatus_RUNNING : string := "running".
Definition WorkflowStatus_COMPLETED : string := "completed".
Definition WorkflowStatus_FAILED : string := "failed".
Definition WorkflowStatus_CANCELLED : string := "cancelled".
Definition WorkflowStatus_NEEDS_HUMAN : string := "needs_human".

Definition TaskStatus_PENDING : string := "pending".
Definition TaskStatus_QUEUED : string := "queued".
Definition TaskStatus_RUNNING : string := "running".
Definition TaskStatus_COMPLETED : string := "completed".
Definition TaskStatus_FAILED : string := "failed".
Definition TaskStatus_CANCELLED : string := "cancelled".
Definition TaskStatus_RETRY : string := "retry".

(** One entry of [workflow_def["tasks"]]. *)
Record TaskDef := mkTaskDef {
  def_id : string;
  def_agent : option string;
  def_action : option string;
  def_params : option string;
  def_depends_on : list string;
  def_priority : option Q;
  def_deadline_ts : option Q
}.

(** A document of the [runs] collection.  Dates are numbers. *)
Record WorkflowDoc := mkWorkflowDoc {
  wf_run_id : string;
  wf_definition : list TaskDef;
  wf_status : string;
  wf_created_at : Q;
  wf_updated_at : Q;
  wf_started_at : option Q;
  wf_completed_at : option Q;
  wf_total_tasks : nat;
  wf_completed_tasks : nat;
  wf_failed_tasks : nat;
  wf_cancellation_reason : option string;
  wf_cancelled_by : option string;
  wf_cancelled_at : option Q
}.

(** A document of the [tasks] collection. *)
Record TaskDoc := mkTaskDoc {
  td_run_id : string;
  td_task_id : string;
  td_definition : TaskDef;
  td_status : string;
  td_created_at : Q;
  td_updated_at : Q;
  td_queued_at : option Q;
  td_completed_at : option Q;
  td_retries : nat;
  td_in_degree : Z;
  td_original_in_degree : Z;
  td_agent : option string;
  td_action : option string;
  td_params : option string;
  td_depends_on : list string;
  td_result : option string;
  td_cancellation_reason : option string;
  td_cancellation_requested : bool
}.

(** The Mongo database: two collections, in insertion order. *)
Record Db := mkDb {
  runs : list WorkflowDoc;
  tasks : list TaskDoc
}.

(** [collection.update_one(filter, update)]: the first match is updated. *)
Fixpoint update_one {A} (p : A -> bool) (f : A -> A) (l : list A) : list A :=
  match l with
  | [] => []
  | x :: l' => if p x then f x :: l' else x :: update_one p f l'
  end.

(** [collection.update_many(filter, update)] *)
Definition update_many {A} (p : A -> bool) (f : A -> A) (l : list A)
  : list A :=
  map (fun x => if p x then f x else x) l.

(** [collection.find_one(filter)] *)
Definition find_one {A} (p : A -> bool) (l : list A) : option A :=
  List.find p l.

(** An event handed to the callbacks by [WorkflowManager._emit_event]. *)
Record ManagerEvent := mkManagerEvent {
  me_type : string;
  me_run_id : string;
  me_task_id : option string;
  me_success : option bool;
  me_completed_tasks : option nat;
  me_failed_tasks : option nat;
  me_timestamp : Q
}.

Record ManagerStats := mkManagerStats {
  workflows_created : nat;
  workflows_completed : nat;
  workflows_failed : nat;
  tasks_enqueued : nat;
  tasks_completed : nat;
  tasks_failed : nat
}.

Record WorkflowManager := mkManager {
  use_mongo : bool;
  db : option Db;
  in_memory_workflows : gmap string WorkflowDoc;
  in_memory_tasks : gmap string TaskDoc;
  emitted : list ManagerEvent;
  stats : ManagerStats
}.

Definition set_db (self : WorkflowManager) (d : Db) : WorkflowManager :=
  mkManager (use_mongo self) (Some d) (in_memory_workflows self)
    (in_memory_tasks self) (emitted self) (stats self).

Definition set_stats (self : WorkflowManager) (s : ManagerStats)
  : WorkflowManager :=
  mkManager (use_mongo self) (db self) (in_memory_workflows self)
    (in_memory_tasks self) (emitted self) s.

Definition _emit_event (self : WorkflowManager) (event : ManagerEvent)
  : WorkflowManager :=
  mkManager (use_mongo self) (db self) (in_memory_workflows self)
    (in_memory_tasks self) (emitted self ++ [event]) (stats self).

Definition set_task_status (t : TaskDoc) (status : string) : TaskDoc :=
  mkTaskDoc (td_run_id t) (td_task_id t) (td_definition t) status
    (td_created_at t) (td_updated_at t) (td_queued_at t) (td_completed_at t)
    (td_retries t) (td_in_degree t) (td_original_in_degree t) (td_agent t)
    (td_action t) (td_params t) (td_depends_on t) (td_result t)
    (td_cancellation_reason t) (td_cancellation_requested t).

Definition set_workflow_status (w : WorkflowDoc) (status : string)
  : WorkflowDoc :=
  mkWorkflowDoc (wf_run_id w) (wf_definition w) status (wf_created_at w)
    (wf_updated_at w) (wf_started_at w) (wf_completed_at w)
    (wf_total_tasks w) (wf_completed_tasks w) (wf_failed_tasks w)
    (wf_cancellation_reason w) (wf_cancelled_by w) (wf_cancelled_at w).

(** The filter [{"run_id": run_id}] on [runs]. *)
Definition is_run (run_id : string) (w : WorkflowDoc) : bool :=
  String.eqb (wf_run_id w) run_id.

(** The filter [{"run_id": run_id, "task_id": task_id}] on [tasks]. *)
Definition is_task (run_id task_id : string) (t : TaskDoc) : bool :=
  String.eqb (td_run_id t) run_id && String.eqb (td_task_id t) task_id.

(** [x in [s1, s2, ...]] on strings. *)
Definition str_in (x : string) (l : list string) : bool :=
  existsb (String.eqb x) l.

(** [WorkflowManager._create_task_documents]: the list [task_docs]. *)
Definition _create_task_documents (run_id : string) (tasks : list TaskDef)
  (now : Q) : list TaskDoc :=
  map (fun task =>
         let in_degree := Z.of_nat (length (def_depends_on task)) in
         mkTaskDoc run_id (def_id task) task TaskStatus_PENDING now now
           None None 0%nat in_degree in_degree (def_agent task)
           (def_action task) (def_params task) (def_depends_on task)
           None None false)
      tasks.

(** The key [f"{run_id}:{task_doc['task_id']}"] of [in_memory_tasks]. *)
Definition task_key (run_id task_id : string) : string :=
  run_id +:+ ":" +:+ task_id.

(** [WorkflowManager.init_workflow]; [run_id] is the identifier it derives
    from the clock.  Storage errors are not modelled. *)
Definition init_workflow (self : WorkflowManager) (run_id : string)
  (workflow_def : list TaskDef) (now : Q) : string * WorkflowManager :=
  let workflow_doc :=
    mkWorkflowDoc run_id workflow_def WorkflowStatus_PENDING now now None
      None (length workflow_def) 0%nat 0%nat None None None in
  let task_docs := _create_task_documents run_id workflow_def now in
  let stored :=
    match use_mongo self, db self with
    | true, Some d =>
        mkManager (use_mongo self)
          (Some (mkDb (runs d ++ [workflow_doc]) (tasks d ++ task_docs)))
          (in_memory_workflows self) (in_memory_tasks self)
          (emitted self) (stats self)
    | _, _ =>
        mkManager (use_mongo self) (db self)
          (<[run_id := workflow_doc]> (in_memory_workflows self))
          (foldl (fun m task_doc =>
                    <[task_key run_id (td_task_id task_doc) := task_doc]> m)
                 (in_memory_tasks self) task_docs)
          (emitted self) (stats self)
    end in
  let counted :=
    set_stats stored
      (mkManagerStats (S (workflows_created (stats stored)))
         (workflows_completed (stats stored))
         (workflows_failed (stats stored))
         (tasks_enqueued (stats stored))
         (tasks_completed (stats stored))
         (tasks_failed (stats stored))) in
  (run_id,
   _emit_event counted
     (mkManagerEvent "workflow_created" run_id None None None None now)).

Section WithHeap.
Context {HQ : Scheduler.HeapQ}.

(** The process: the coordinator, the engine's scheduler and retry
    tracker, and the Redis set [cancelled_runs] ([None] when the server
    cannot be reached). *)
Record Engine := mkEngine {
  manager : WorkflowManager;
  scheduler : Scheduler.PriorityQueueScheduler;
  retry_tracker : Retry.RetryTracker;
  cancelled_runs : option (gset string)
}.

Definition set_manager (e : Engine) (m : WorkflowManager) : Engine :=
  mkEngine m (scheduler e) (retry_tracker e) (cancelled_runs e).

(** Modelled from the spec: [workflow_engine.enqueue_task], imported as
    [engine_enqueue_task]; the package's [__init__] is not among the
    sources.  Per the data flow of the overview, the coordinator "pushes
    ... tasks into the scheduler": the call is the scheduler's [enqueue]. *)
Definition engine_enqueue_task (e : Engine) (tm : TaskMeta) (now : Q)
  : bool * Engine :=
  let '(ok, s) := Scheduler.enqueue (scheduler e) tm now now in
  (ok, mkEngine (manager e) s (retry_tracker e) (cancelled_runs e)).

(** [WorkflowManager._enqueue_task] on the document [task]: the updated
    document and the rest of the state. *)
Definition _enqueue_task (e : Engine) (task : TaskDoc) (now : Q)
  : TaskDoc * Engine :=
  let task' :=
    mkTaskDoc (td_run_id task) (td_task_id task) (td_definition task)
      TaskStatus_QUEUED (td_created_at task) now (Some now)
      (td_completed_at task) (td_retries task) (td_in_degree task)
      (td_original_in_degree task) (td_agent task) (td_action task)
      (td_params task) (td_depends_on task) (td_result task)
      (td_cancellation_reason task) (td_cancellation_requested task) in
  let task_meta :=
    mkTaskMeta (Some (td_run_id task)) (Some (td_task_id task))
      (def_agent (td_definition task)) (def_action (td_definition task))
      (def_params (td_definition task))
      (def_depends_on (td_definition task))
      (Some (get (def_priority (td_definition task)) (1 # 2)))
      (def_deadline_ts (td_definition task))
      (Some (td_retries task)) (Some (td_retries task + 1)%nat)
      None None None None None None None
      (Some "{}"%string) (Some now) in
  let '(_, e1) := engine_enqueue_task e task_meta now in
  let m := manager e1 in
  let m1 :=
    set_stats m
      (mkManagerStats (workflows_created (stats m))
         (workflows_completed (stats m)) (workflows_failed (stats m))
         (S (tasks_enqueued (stats m))) (tasks_completed (stats m))
         (tasks_failed (stats m))) in
  (task',
   set_manager e1
     (_emit_event m1
        (mkManagerEvent "task_queued" (td_run_id task)
           (Some (td_task_id task)) None None None now))).

(** A loop [for task in <find(filter)>: <update of that document>],
    where every step only writes the document it visits. *)
Fixpoint for_each_task (sel : TaskDoc -> bool)
  (body : Engine -> TaskDoc -> TaskDoc * Engine)
  (e : Engine) (docs : list TaskDoc) : list TaskDoc * Engine :=
  match docs with
  | [] => ([], e)
  | t :: rest =>
      if sel t then
        let '(t', e1) := body e t in
        let '(rest', e2) := for_each_task sel body e1 rest in
        (t' :: rest', e2)
      else
        let '(rest', e2) := for_each_task sel body e rest in
        (t :: rest', e2)
  end.

Definition write_tasks (e : Engine) (runs : list WorkflowDoc)
  (docs : list TaskDoc) : Engine :=
  set_manager e (set_db (manager e) (mkDb runs docs)).

(** [WorkflowManager.enqueue_initial_tasks] *)
Definition enqueue_initial_tasks (e : Engine) (run_id : string) (now : Q)
  : Engine :=
  match db (manager e) with
  | None => e
  | Some d =>
      let '(docs, e1) :=
        for_each_task
          (fun t => String.eqb (td_run_id t) run_id
                    && (td_in_degree t =? 0)%Z
                    && String.eqb (td_status t) TaskStatus_PENDING)
          (fun e t => _enqueue_task e t now)
          e (tasks d) in
      write_tasks e1 (runs d) docs
  end.

(** [WorkflowManager.start_workflow] *)
Definition start_workflow (e : Engine) (run_id : string) (now : Q)
  : bool * Engine :=
  let e1 :=
    match db (manager e) with
    | Some d =>
        set_manager e
          (set_db (manager e)
             (mkDb
                (update_one (is_run run_id)
                   (fun w =>
                      mkWorkflowDoc (wf_run_id w) (wf_definition w)
                        WorkflowStatus_RUNNING (wf_created_at w) now
                        (Some now) (wf_completed_at w) (wf_total_tasks w)
                        (wf_completed_tasks w) (wf_failed_tasks w)
                        (wf_cancellation_reason w) (wf_cancelled_by w)
                        (wf_cancelled_at w))
                   (runs d))
                (tasks d)))
    | None => e
    end in
  let e2 := enqueue_initial_tasks e1 run_id now in
  (true,
   set_manager e2
     (_emit_event (manager e2)
        (mkManagerEvent "workflow_started" run_id None None None None now))).

(** [WorkflowManager._process_dependent_tasks] *)
Definition _process_dependent_tasks (e : Engine) (d : Db)
  (run_id completed_task_id : string) (now : Q) : Engine :=
  let '(docs, e1) :=
    for_each_task
      (fun t => String.eqb (td_run_id t) run_id
                && str_in completed_task_id (td_depends_on t)
                && String.eqb (td_status t) TaskStatus_PENDING)
      (fun e task =>
         let new_in_degree := (td_in_degree task - 1)%Z in
         let updated_task :=
           mkTaskDoc (td_run_id task) (td_task_id task)
             (td_definition task) (td_status task) (td_created_at task)
             now (td_queued_at task) (td_completed_at task)
             (td_retries task) new_in_degree (td_original_in_degree task)
             (td_agent task) (td_action task) (td_params task)
             (td_depends_on task) (td_result task)
             (td_cancellation_reason task)
             (td_cancellation_requested task) in
         if (new_in_degree =? 0)%Z then _enqueue_task e updated_task now
         else (updated_task, e))
      e (tasks d) in
  write_tasks e1 (runs d) docs.

(** [WorkflowManager._check_workflow_completion] *)
Definition _check_workflow_completion (e : Engine) (run_id : string)
  (now : Q) : Engine :=
  match db (manager e) with
  | None => e
  | Some d =>
      match find_one (is_run run_id) (runs d) with
      | None => e
      | Some workflow =>
          let total_tasks := wf_total_tasks workflow in
          let completed_tasks := wf_completed_tasks workflow in
          let failed_tasks := wf_failed_tasks workflow in
          if (total_tasks <=? completed_tasks + failed_tasks)%nat then
            let finish status :=
              update_one (is_run run_id)
                (fun w =>
                   mkWorkflowDoc (wf_run_id w) (wf_definition w) status
                     (wf_created_at w) now (wf_started_at w) (Some now)
                     (wf_total_tasks w) (wf_completed_tasks w)
                     (wf_failed_tasks w) (wf_cancellation_reason w)
                     (wf_cancelled_by w) (wf_cancelled_at w))
                (runs d) in
            let m := manager e in
            if (0 <? failed_tasks)%nat then
              let m1 := set_db m (mkDb (finish WorkflowStatus_FAILED) (tasks d)) in
              let m2 :=
                set_stats m1
                  (mkManagerStats (workflows_created (stats m))
                     (workflows_completed (stats m))
                     (S (workflows_failed (stats m)))
                     (tasks_enqueued (stats m)) (tasks_completed (stats m))
                     (tasks_failed (stats m))) in
              set_manager e
                (_emit_event m2
                   (mkManagerEvent "workflow_failed" run_id None None
                      (Some completed_tasks) (Some failed_tasks) now))
            else
              let m1 :=
                set_db m (mkDb (finish WorkflowStatus_COMPLETED) (tasks d)) in
              let m2 :=
                set_stats m1
                  (mkManagerStats (workflows_created (stats m))
                     (S (workflows_completed (stats m)))
                     (workflows_failed (stats m))
                     (tasks_enqueued (stats m)) (tasks_completed (stats m))
                     (tasks_failed (stats m))) in
              set_manager e
                (_emit_event m2
                   (mkManagerEvent "workflow_completed" run_id None None
                      (Some completed_tasks) None now))
          else e
      end
  end.

(** [WorkflowManager.handle_task_completion].  [result] is set on the task
    document only when it is given. *)
Definition handle_task_completion (e : Engine) (run_id task_id : string)
  (success : bool) (result : option string) (now : Q) : Engine :=
  match db (manager e) with
  | None => e
  | Some d =>
      let new_status :=
        if success then TaskStatus_COMPLETED else TaskStatus_FAILED in
      let tasks1 :=
        update_one (is_task run_id task_id)
          (fun t =>
             mkTaskDoc (td_run_id t) (td_task_id t) (td_definition t)
               new_status (td_created_at t) now (td_queued_at t) (Some now)
               (td_retries t) (td_in_degree t) (td_original_in_degree t)
               (td_agent t) (td_action t) (td_params t) (td_depends_on t)
               (match result with Some _ => result | None => td_result t end)
               (td_cancellation_reason t) (td_cancellation_requested t))
          (tasks d) in
      let runs1 :=
        update_one (is_run run_id)
          (fun w =>
             mkWorkflowDoc (wf_run_id w) (wf_definition w) (wf_status w)
               (wf_created_at w) now (wf_started_at w) (wf_completed_at w)
               (wf_total_tasks w)
               (if success then S (wf_completed_tasks w)
                else wf_completed_tasks w)
               (if success then wf_failed_tasks w
                else S (wf_failed_tasks w))
               (wf_cancellation_reason w) (wf_cancelled_by w)
               (wf_cancelled_at w))
          (runs d) in
      let m := manager e in
      let d1 := mkDb runs1 tasks1 in
      let m1 :=
        set_stats (set_db m d1)
          (mkManagerStats (workflows_created (stats m))
             (workflows_completed (stats m)) (workflows_failed (stats m))
             (tasks_enqueued (stats m))
             (if success then S (tasks_completed (stats m))
              else tasks_completed (stats m))
             (if success then tasks_failed (stats m)
              else S (tasks_failed (stats m)))) in
      let e1 := set_manager e m1 in
      let e2 :=
        if success then _process_dependent_tasks e1 d1 run_id task_id now
        else e1 in
      let e3 := _check_workflow_completion e2 run_id now in
      set_manager e3
        (_emit_event (manager e3)
           (mkManagerEvent
              (if success then "task_completed" else "task_failed")
              run_id (Some task_id) (Some success) None None now))
  end.

Definition cancel_task (reason : string) (t : TaskDoc) : TaskDoc :=
  mkTaskDoc (td_run_id t) (td_task_id t) (td_definition t) "CANCELLED"
    (td_created_at t) (td_updated_at t) (td_queued_at t) (td_completed_at t)
    (td_retries t) (td_in_degree t) (td_original_in_degree t) (td_agent t)
    (td_action t) (td_params t) (td_depends_on t) (td_result t)
    (Some reason) (td_cancellation_requested t).

(** [WorkflowManager.cancel_workflow], the second definition of that name
    in the class body (the one in force); [force] is not used by it.

    On the Mongo path the method ends with [await self._send_event(...)].
    The class defines [_emit_event] but no [_send_event]: the attribute
    lookup raises [AttributeError] after all the updates have been made,
    and the enclosing [except Exception] returns False. *)
Definition cancel_workflow (e : Engine) (run_id reason : string)
  (force : bool) (cancelled_by : string) (now : Q) : bool * Engine :=
  let m := manager e in
  match use_mongo m, db m with
  | true, Some d =>
      match find_one (is_run run_id) (runs d) with
      | None => (false, e)
      | Some workflow =>
          if str_in (wf_status workflow) ["COMPLETED"; "FAILED"; "CANCELLED"]
          then (false, e)
          else
            let runs1 :=
              update_one (is_run run_id)
                (fun w =>
                   mkWorkflowDoc (wf_run_id w) (wf_definition w)
                     "CANCELLING" (wf_created_at w) now (wf_started_at w)
                     (wf_completed_at w) (wf_total_tasks w)
                     (wf_completed_tasks w) (wf_failed_tasks w)
                     (Some reason) (Some cancelled_by) (Some now))
                (runs d) in
            let tasks1 :=
              update_many
                (fun t => String.eqb (td_run_id t) run_id
                          && str_in (td_status t) ["PENDING"; "QUEUED"])
                (fun t =>
                   mkTaskDoc (td_run_id t) (td_task_id t) (td_definition t)
                     "CANCELLED" (td_created_at t) now (td_queued_at t)
                     (td_completed_at t) (td_retries t) (td_in_degree t)
                     (td_original_in_degree t) (td_agent t) (td_action t)
                     (td_params t) (td_depends_on t) (td_result t)
                     (Some reason) (td_cancellation_requested t))
                (tasks d) in
            let tasks2 :=
              update_many
                (fun t => String.eqb (td_run_id t) run_id
                          && String.eqb (td_status t) "RUNNING")
                (fun t =>
                   mkTaskDoc (td_run_id t) (td_task_id t) (td_definition t)
                     (td_status t) (td_created_at t) now (td_queued_at t)
                     (td_completed_at t) (td_retries t) (td_in_degree t)
                     (td_original_in_degree t) (td_agent t) (td_action t)
                     (td_params t) (td_depends_on t) (td_result t)
                     (Some reason) true)
                tasks1 in
            let fenced :=
              match cancelled_runs e with
              | Some s => Some ({[run_id]} ∪ s)
              | None => None
              end in
            (false,
             mkEngine (set_db m (mkDb runs1 tasks2)) (scheduler e)
               (retry_tracker e) fenced)
      end
  | _, _ =>
      match in_memory_workflows m !! run_id with
      | Some workflow =>
          let workflow' :=
            mkWorkflowDoc (wf_run_id workflow) (wf_definition workflow)
              "CANCELLED" (wf_created_at workflow) (wf_updated_at workflow)
              (wf_started_at workflow) (wf_completed_at workflow)
              (wf_total_tasks workflow) (wf_completed_tasks workflow)
              (wf_failed_tasks workflow) (Some reason) (Some cancelled_by)
              (Some now) in
          let tasks' :=
            (fun task =>
               if String.eqb (td_run_id task) run_id
                  && str_in (td_status task) ["PENDING"; "QUEUED"; "RUNNING"]
               then cancel_task reason task
               else task) <$> in_memory_tasks m in
          (true,
           set_manager e
             (mkManager (use_mongo m) (db m)
                (<[run_id := workflow']> (in_memory_workflows m))
                tasks' (emitted m) (stats m)))
      | None => (false, e)
      end
  end.


End WithHeap.

Arguments Engine {HQ}.

End Manager.

(** * More of workflow_engine/state.py *)
Module StateExt.
Import State.

(** The order in which Redis keeps a sorted set: by score, and members
    of equal score in lexicographic order. *)
Definition zset_le (a b : string * Q) : bool :=
  Qlt_bool (snd a) (snd b)
  || (Qeq_bool (snd a) (snd b) && String.leb (fst a) (fst b)).

Fixpoint zset_insert (e : string * Q) (l : list (string * Q))
  : list (string * Q) :=
  match l with
  | [] => [e]
  | f :: l' => if zset_le e f then e :: f :: l' else f :: zset_insert e l'
  end.

(** The members of a sorted set with their scores, in rank order. *)
Definition zset_entries (z : gmap string Q) : list (string * Q) :=
  foldr zset_insert [] (map_to_list z).

Definition in_score_range (lo hi : Q) (e : string * Q) : bool :=
  Qle_bool lo (snd e) && Qle_bool (snd e) hi.

(** [ZRANGEBYSCORE key min max]: the members whose score is in
    [[min, max]], in rank order. *)
Definition zrangebyscore (z : gmap string Q) (lo hi : Q) : list string :=
  map fst (List.filter (in_score_range lo hi) (zset_entries z)).

(** [ZREMRANGEBYSCORE key min max] *)
Definition zremrangebyscore (z : gmap string Q) (lo hi : Q)
  : gmap string Q :=
  filter (fun e => in_score_range lo hi e = false) z.

(** [ZRANGE key start stop WITHSCORES]: the entries of rank [start] to
    [stop], both included; a negative index counts from the end, and an
    index past the end is cut to the last rank. *)
Definition zrange (z : gmap string Q) (start stop : Z)
  : list (string * Q) :=
  let n := Z.of_nat (length (zset_entries z)) in
  let start' := if (start <? 0)%Z then Z.max (n + start) 0 else start in
  let stop' := if (stop <? 0)%Z then (n + stop)%Z else Z.min stop (n - 1) in
  if (stop' <? start')%Z || (n <=? start')%Z then []
  else take (Z.to_nat (stop' - start' + 1))
         (drop (Z.to_nat start') (zset_entries z)).

(** [RedisStore.fetch_due_retries] *)
Definition fetch_due_retries (s : RedisStore) (now : Q)
  : list string * RedisStore :=
  match r s with
  | None => ([], s)
  | Some db =>
      let due_tasks := zrangebyscore (retry_q db) 0 now in
      match due_tasks with
      | [] => (due_tasks, s)
      | _ :: _ =>
          (due_tasks,
           mkRedisStore
             (Some (mkRedisDb (zremrangebyscore (retry_q db) 0 now)
                      (ert db)))
             (namespace s))
      end
  end.

End StateExt.

(** * More of workflow_engine/scheduler.py *)
Module SchedulerExt.
Import State Scheduler.

(** [sorted(tasks, key=lambda t: t.score)]: Python's sort is stable, an
    entry stays before the later entries of equal score. *)
Fixpoint insert_by_score (t : ScoredTask) (l : list ScoredTask)
  : list ScoredTask :=
  match l with
  | [] => [t]
  | u :: l' =>
      if Qle_bool (score_of t) (score_of u) then t :: u :: l'
      else u :: insert_by_score t l'
  end.

Definition sorted_by_score (l : list ScoredTask) : list ScoredTask :=
  foldr insert_by_score [] l.

(** The slice [l[:k]]: a negative [k] counts from the end. *)
Definition slice_to {A} (k : Z) (l : list A) : list A :=
  if (k <? 0)%Z then take (Z.to_nat (Z.of_nat (length l) + k)) l
  else take (Z.to_nat k) l.

(** One row of the listing returned by [list_tasks]. *)
Record TaskRow := mkTaskRow {
  row_task_id : string;
  row_agent : string;
  row_action : string;
  row_score : Q;
  row_enqueue_time : Q
}.

Definition task_row (task : ScoredTask) : TaskRow :=
  mkTaskRow (get (tm_task_id (task_meta task)) "unknown"%string)
    (get (tm_agent (task_meta task)) "unknown"%string)
    (get (tm_action (task_meta task)) "unknown"%string)
    (score_of task) (enqueue_time task).

Section WithHeap.
Context {HQ : HeapQ}.

(** [PriorityQueueScheduler.peek]; [self.heap[0]] is the first entry of
    the list. *)
Definition peek (self : PriorityQueueScheduler)
  (agent_filter : option string) : option TaskMeta :=
  match contents (sched_heap self) with
  | [] => None
  | first :: _ =>
      match agent_filter with
      | None | Some EmptyString => Some (task_meta first)
      | Some agent_filter =>
          match List.filter (agent_matches agent_filter)
                  (contents (sched_heap self)) with
          | m :: matching_tasks =>
              Some (task_meta (min_by_score m matching_tasks))
          | [] => None
          end
      end
  end.

(** [PriorityQueueScheduler.get_queue_size] *)
Definition get_queue_size (self : PriorityQueueScheduler)
  (agent_filter : option string) : nat :=
  match agent_filter with
  | None | Some EmptyString => length (contents (sched_heap self))
  | Some agent_filter =>
      length (List.filter (agent_matches agent_filter)
                (contents (sched_heap self)))
  end.

(** [PriorityQueueScheduler.clear] *)
Definition clear (self : PriorityQueueScheduler) : PriorityQueueScheduler :=
  mkScheduler (α self) (β self) (γ self) (heapify []) (redis self)
    (mkSchedStats (tasks_enqueued (stats self))
       (tasks_dequeued (stats self)) 0 0).

(** [PriorityQueueScheduler.list_tasks] *)
Definition list_tasks (self : PriorityQueueScheduler) (limit : Z)
  : list TaskRow :=
  map task_row
    (slice_to limit (sorted_by_score (contents (sched_heap self)))).

End WithHeap.

End SchedulerExt.

(** * More of workflow_engine/retry_tracker.py *)
Module RetryExt.
Import State StateExt Retry.

(** The dictionary returned by [get_retry_info] and listed by
    [list_pending_retries]. *)
Record RetryInfo := mkRetryInfo {
  info_task_id : string;
  info_retry_timestamp : Q;
  info_time_remaining_s : Q;
  info_is_due : bool
}.

Definition retry_info (now : Q) (task_id : string) (timestamp : Q)
  : RetryInfo :=
  let time_remaining := Qmax 0 (timestamp - now) in
  mkRetryInfo task_id timestamp time_remaining (Qle_bool time_remaining 0).

(** [RetryTracker.get_retry_info]; [now] is the value of [time.time()]. *)
Definition get_retry_info (self : RetryTracker) (task_id : string)
  (now : Q) : option RetryInfo :=
  match r (redis self) with
  | None => None
  | Some db =>
      match retry_q db !! task_id with
      | None => None
      | Some score => Some (retry_info now task_id score)
      end
  end.

(** [RetryTracker.list_pending_retries] *)
Definition list_pending_retries (self : RetryTracker) (limit : Z) (now : Q)
  : list RetryInfo :=
  match r (redis self) with
  | None => []
  | Some db =>
      map (fun e => retry_info now (fst e) (snd e))
        (zrange (retry_q db) 0 (limit - 1))
  end.

(** [RetryTracker._fetch_task_metadata]: a placeholder in the source,
    which logs and returns [None] for every task. *)
Definition _fetch_task_metadata (self : RetryTracker) (task_id : string)
  : option TaskMeta := None.

Definition set_redis (self : RetryTracker) (store : RedisStore)
  : RetryTracker :=
  mkRetryTracker (max_retries self) (backoff_base_s self)
    (backoff_max_s self) store (is_running self) (poll_interval self)
    (stats self).

Definition set_stats (self : RetryTracker) (s : RetryStats) : RetryTracker :=
  mkRetryTracker (max_retries self) (backoff_base_s self)
    (backoff_max_s self) (redis self) (is_running self) (poll_interval self)
    s.

(** [RetryTracker.clear_all_retries]: [DEL] answers the number of keys
    removed, and the key of a sorted set exists when the set has a
    member. *)
Definition clear_all_retries (self : RetryTracker) : nat * RetryTracker :=
  match r (redis self) with
  | None => (0%nat, self)
  | Some db =>
      let cleared := if decide (retry_q db = ∅) then 0%nat else 1%nat in
      (cleared,
       set_stats
         (set_redis self
            (mkRedisStore (Some (mkRedisDb ∅ (ert db)))
               (namespace (redis self))))
         (mkRetryStats (retries_scheduled (stats self))
            (retries_executed (stats self))
            (retries_abandoned (stats self)) 0))
  end.

Section WithHeap.
Context {HQ : Scheduler.HeapQ}.

(** The loop [for task_id in due_task_ids] of [_process_due_retries]:
    the scheduler and the counter [retries_executed]. *)
Fixpoint reenqueue_due (self : RetryTracker) (due_task_ids : list string)
  (sched : Scheduler.PriorityQueueScheduler) (executed : nat) (now : Q)
  : Scheduler.PriorityQueueScheduler * nat :=
  match due_task_ids with
  | [] => (sched, executed)
  | task_id :: rest =>
      match _fetch_task_metadata self task_id with
      | Some task_meta =>
          let '(success, sched') :=
            Scheduler.enqueue sched task_meta now now in
          reenqueue_due self rest sched'
            (if success then S executed else executed) now
      | None => reenqueue_due self rest sched executed now
      end
  end.

(** [RetryTracker._process_due_retries], one tick of the polling loop;
    [sched] is [self.scheduler]. *)
Definition _process_due_retries (self : RetryTracker)
  (sched : Scheduler.PriorityQueueScheduler) (now : Q)
  : RetryTracker * Scheduler.PriorityQueueScheduler :=
  let '(due_task_ids, store) := fetch_due_retries (redis self) now in
  let self1 := set_redis self store in
  match due_task_ids with
  | [] => (self1, sched)
  | _ :: _ =>
      let '(sched', executed) :=
        reenqueue_due self1 due_task_ids sched
          (retries_executed (stats self1)) now in
      (set_stats self1
         (mkRetryStats (retries_scheduled (stats self1)) executed
            (retries_abandoned (stats self1)) (_get_pending_count self1)),
       sched')
  end.

End WithHeap.

End RetryExt.

(** * More of workflow_engine/worker_pool.py *)
Module WorkerExt.
Import State Worker.

Section WithHeap.
Context {HQ : Scheduler.HeapQ}.

Definition set_active (active : bool) (worker_id : nat)
  (stats : list WorkerStats) : list WorkerStats :=
  alter (fun s => mkWorkerStats (tasks_executed s) (tasks_succeeded s)
                    (tasks_failed s) (total_runtime_s s)
                    (last_task_time s) active)
        worker_id stats.

(** One turn of the loop of [WorkerPool._worker_loop]: the pool, and the
    task metadata that was executed, if the queue had a task for the
    agent.  The test [if task_meta] asks for a dictionary that is not
    empty; the metadata handed out under a named agent filter has the key
    [agent], so for a pool with a named agent it asks whether a task was
    handed out.  [worker_id] is an index of [worker_stats], as it is for
    the workers that [start] creates. *)
Definition _worker_loop_step (self : WorkerPool) (worker_id : nat)
  (outcome : HttpOutcome) (clock : Ticks) : WorkerPool * option TaskMeta :=
  match Scheduler.dequeue (scheduler self) (Some (agent self)) with
  | (Some task_meta, sched) =>
      let busy :=
        mkWorkerPool (agent self) sched (retry_tracker self) (session self)
          (set_active true worker_id (worker_stats self)) (emitted self) in
      let '(done, task_meta') :=
        _execute_task busy task_meta worker_id outcome clock in
      (mkWorkerPool (agent done) (scheduler done) (retry_tracker done)
         (session done) (set_active false worker_id (worker_stats done))
         (emitted done),
       Some task_meta')
  | (None, sched) =>
      (mkWorkerPool (agent self) sched (retry_tracker self) (session self)
         (worker_stats self) (emitted self),
       None)
  end.

End WithHeap.

End WorkerExt.

(** * Vocabulary of the properties *)

Import State Scheduler Retry Manager.

(** [key_le a b]: [a] does not come after [b]. *)
Definition key_le (a b : ScoredTask) : Prop :=
  score_of a < score_of b
  \/ (score_of a == score_of b /\ enqueue_time a <= enqueue_time b).

Definition key_lt (a b : ScoredTask) : Prop :=
  score_of a < score_of b
  \/ (score_of a == score_of b /\ enqueue_time a < enqueue_time b).

(** What a filter selects: a falsy filter ([None] or the empty string)
    selects every entry, a name selects the entries of that agent. *)
Definition selects (agent_filter : option string) (t : ScoredTask) : bool :=
  match agent_filter with
  | None | Some EmptyString => true
  | Some a => agent_matches a t
  end.

(** The estimate stored for an (agent, action) pair, if there is one. *)
Definition stored_ert (store : RedisStore) (agent action : string)
  : option Q :=
  match r store with
  | Some db => ert db !! ert_key agent action
  | None => None
  end.

(** The deadline of a task, when one is set: the key [deadline_ts] holds a
    truthy value (not [None], not zero). *)
Definition deadline_of (tm : TaskMeta) : option Q :=
  match tm_deadline_ts tm with
  | Some d => if Qeq_bool d 0 then None else Some d
  | None => None
  end.

(** The three quantities of the score formula, in the words of the
    specification. *)
Definition ERT `{HeapQ} (self : PriorityQueueScheduler) (tm : TaskMeta) : Q :=
  match stored_ert (Scheduler.redis self)
          (get (tm_agent tm) "unknown"%string)
          (get (tm_action tm) "unknown"%string) with
  | Some seconds => seconds
  | None => 60
  end.

Definition user_priority_of (tm : TaskMeta) : Q :=
  get (tm_user_priority tm) (1 # 2).

Definition urgency_of (tm : TaskMeta) (now : Q) : Q :=
  match deadline_of tm with
  | Some deadline => 1 / Qmax (deadline - now) 1
  | None => 0
  end.

(** [k] successive calls [update_ert(agent, action, runtime)]. *)
Definition observe (agent action : string) (runtime : Q) (k : nat)
  (store : RedisStore) : RedisStore :=
  Nat.iter k (fun s => snd (update_ert s agent action runtime)) store.

(** [n] successive calls [dequeue(agent_filter)] with nothing enqueued in
    between: the entries handed out, in order, up to the first empty
    answer. *)
Fixpoint dequeue_run `{HeapQ} (n : nat) (self : PriorityQueueScheduler)
  (agent_filter : option string) : list ScoredTask :=
  match n with
  | O => []
  | S n' =>
      match dequeue_entry self agent_filter with
      | (Some x, self') => x :: dequeue_run n' self' agent_filter
      | (None, _) => []
      end
  end.

(** The delay queue of a retry tracker (empty without Redis). *)
Definition delay_queue (t : RetryTracker) : gmap string Q :=
  match r (redis t) with
  | Some db => retry_q db
  | None => ∅
  end.

(** * A list implementation of [heapq]

    The scenarios below run the engine on concrete queues; for that the
    contract [HeapQ] needs an implementation, given here with the proofs
    of its laws. *)

(** ** Booleans and rationals *)

Lemma Qlt_bool_iff (a b : Q) : Qlt_bool a b = true <-> a < b.
Proof.
  unfold Qlt_bool. rewrite negb_true_iff.
  split.
  - intros H. apply Qnot_le_lt. intros Hle.
    apply Qle_bool_iff in Hle. congruence.
  - intros H. destruct (Qle_bool b a) eqn:E; [|reflexivity].
    apply Qle_bool_iff in E. lra.
Qed.

Lemma Qlt_bool_false_iff (a b : Q) : Qlt_bool a b = false <-> b <= a.
Proof.
  unfold Qlt_bool. rewrite negb_false_iff. apply Qle_bool_iff.
Qed.

Lemma Qeq_bool_false_iff (a b : Q) : Qeq_bool a b = false <-> ~ a == b.
Proof.
  split.
  - intros H Heq. apply Qeq_bool_iff in Heq. congruence.
  - intros H. destruct (Qeq_bool a b) eqn:E; [|reflexivity].
    apply Qeq_bool_iff in E. contradiction.
Qed.

(** ** The order of the queue: [(score, enqueue_time)], ascending *)

Lemma ScoredTask_lt_iff (a b : ScoredTask) :
  ScoredTask_lt a b = true <-> key_lt a b.
Proof.
  unfold ScoredTask_lt, key_lt.
  destruct (Qeq_bool (score_of a) (score_of b)) eqn:E; simpl.
  - apply Qeq_bool_iff in E. rewrite Qlt_bool_iff. split.
    + intros H. right. split; assumption.
    + intros [H | [_ H]]; [lra | assumption].
  - apply Qeq_bool_false_iff in E. rewrite Qlt_bool_iff. split.
    + intros H. left. assumption.
    + intros [H | [H _]]; [assumption | contradiction].
Qed.

Lemma ScoredTask_lt_false_iff (a b : ScoredTask) :
  ScoredTask_lt b a = false <-> key_le a b.
Proof.
  unfold ScoredTask_lt, key_le.
  destruct (Qeq_bool (score_of b) (score_of a)) eqn:E; simpl.
  - apply Qeq_bool_iff in E. rewrite Qlt_bool_false_iff. split.
    + intros H. right. split; [lra | assumption].
    + intros [H | [_ H]]; [lra | assumption].
  - apply Qeq_bool_false_iff in E. rewrite Qlt_bool_false_iff. split.
    + intros H. left. lra.
    + intros [H | [H _]]; [lra | ]. exfalso. apply E. lra.
Qed.

Lemma key_le_refl (a : ScoredTask) : key_le a a.
Proof. right. split; [reflexivity | apply Qle_refl]. Qed.

Lemma key_le_trans (a b c : ScoredTask) :
  key_le a b -> key_le b c -> key_le a c.
Proof.
  unfold key_le. intros [H1 | [H1 H1']] [H2 | [H2 H2']].
  - left. lra.
  - left. lra.
  - left. lra.
  - right. split; lra.
Qed.

Lemma key_le_total (a b : ScoredTask) : key_le a b \/ key_le b a.
Proof.
  unfold key_le.
  destruct (Qlt_le_dec (score_of a) (score_of b)) as [H | H]; [tauto |].
  destruct (Qlt_le_dec (score_of b) (score_of a)) as [H' | H']; [tauto |].
  assert (score_of a == score_of b) by lra.
  destruct (Qlt_le_dec (enqueue_time a) (enqueue_time b)) as [Ht | Ht].
  - left. right. split; lra.
  - right. right. split; lra.
Qed.

Lemma key_le_score (a b : ScoredTask) : key_le a b -> score_of a <= score_of b.
Proof. intros [H | [H _]]; lra. Qed.

(** ** The list implementation satisfies the contract *)

Lemma extract_min_None (l : list ScoredTask) :
  extract_min l = None <-> l = [].
Proof.
  destruct l as [| x l]; simpl; [tauto |].
  split; [| discriminate].
  destruct (extract_min l) as [[m rest] |]; [| discriminate].
  destruct (ScoredTask_lt m x); discriminate.
Qed.

Lemma extract_min_perm (l : list ScoredTask) x rest :
  extract_min l = Some (x, rest) -> x :: rest ≡ₚ l.
Proof.
  revert x rest. induction l as [| a l IH]; simpl; intros x rest H.
  - discriminate.
  - destruct (extract_min l) as [[m r'] |] eqn:E.
    + destruct (ScoredTask_lt m a); inversion H; subst.
      * rewrite Permutation_swap. constructor. apply IH. reflexivity.
      * reflexivity.
    + apply extract_min_None in E. inversion H; subst. reflexivity.
Qed.

Lemma extract_min_least (l : list ScoredTask) x rest :
  extract_min l = Some (x, rest) ->
  Forall (fun y => ScoredTask_lt y x = false) l.
Proof.
  revert x rest. induction l as [| a l IH]; simpl; intros x rest H.
  - discriminate.
  - destruct (extract_min l) as [[m r'] |] eqn:E.
    + specialize (IH m r' eq_refl).
      destruct (ScoredTask_lt m a) eqn:Hlt; inversion H; subst.
      * constructor; [| assumption].
        apply ScoredTask_lt_false_iff.
        apply ScoredTask_lt_iff in Hlt. destruct Hlt as [? | [? ?]].
        -- left. assumption.
        -- right. split; [assumption | lra].
      * constructor; [apply ScoredTask_lt_false_iff, key_le_refl |].
        apply ScoredTask_lt_false_iff in Hlt.
        eapply Forall_impl; [exact IH |].
        intros y Hy. simpl in Hy. apply ScoredTask_lt_false_iff.
        apply ScoredTask_lt_false_iff in Hy.
        eapply key_le_trans; eassumption.
    + apply extract_min_None in E. inversion H; subst.
      constructor; [| constructor].
      apply ScoredTask_lt_false_iff, key_le_refl.
Qed.

Lemma ListHeap_push (h : list ScoredTask) (x : ScoredTask) :
  h ++ [x] ≡ₚ x :: h.
Proof. symmetry. apply Permutation_cons_append. Qed.

#[export] Instance ListHeap : HeapQ := {|
  heap := list ScoredTask;
  contents := fun h => h;
  heapify := fun l => l;
  heappush := fun h x => h ++ [x];
  heappop := extract_min;
  heapify_contents := fun l => reflexivity l;
  heappush_contents := ListHeap_push;
  heappop_empty := extract_min_None;
  heappop_contents := fun h x h' => extract_min_perm h x h';
  heappop_least := fun h x h' => extract_min_least h x h'
|}.

(** * Scenarios

    The scenarios run on [ListHeap].  Workflow [W] has its tasks on agent
    [X]; the clock readings are small integers. *)

(** A task of agent [eda_agent], as [_enqueue_task] would build it. *)
Definition duplicate_task : TaskMeta :=
  mkTaskMeta (Some "run_1"%string) (Some "A"%string)
    (Some "eda_agent"%string) (Some "profile"%string) None []
    (Some (1 # 2)) None (Some 0%nat) (Some 1%nat)
    None None None None None None None (Some "{}"%string) (Some 99).

Definition connected (ns : string) : RedisStore :=
  mkRedisStore (Some (mkRedisDb ∅ ∅)) ns.

(** A fresh engine on Mongo and Redis, with [max_retries = retries]. *)
Definition new_engine (retries : nat) : @Engine ListHeap :=
  mkEngine
    (mkManager true (Some (mkDb [] [])) ∅ ∅ [] (mkManagerStats 0 0 0 0 0 0))
    (Scheduler.init (mkSchedulerConfig None None None)
       (connected "scheduler"))
    (Retry.init (mkRetryConfig (Some retries) None None None)
       (connected "retry_tracker"))
    (Some ∅).

Definition task_def (id : string) (deps : list string) : TaskDef :=
  mkTaskDef id (Some "X"%string) (Some "run"%string) None deps None None.

(** The chain [A -> B -> C] of scenario S4. *)
Definition chain : list TaskDef :=
  [task_def "A" []; task_def "B" ["A"%string]; task_def "C" ["B"%string]].

(** [init_workflow] then [start_workflow] on workflow [W]. *)
Definition started (defs : list TaskDef) (retries : nat) : @Engine ListHeap :=
  let e0 := new_engine retries in
  let '(_, m1) := init_workflow (manager e0) "W" defs 0 in
  snd (start_workflow (set_manager e0 m1) "W" 1).








(** The task metadata of [A] in workflow [W]. *)
Definition task_A : TaskMeta :=
  mkTaskMeta (Some "W"%string) (Some "A"%string) (Some "X"%string)
    (Some "run"%string) None [] (Some (1 # 2)) None (Some 0%nat)
    (Some 1%nat) None None None None None None None (Some "{}"%string)
    (Some 1).

(** An engine on the in-memory fallback: workflow [W] is RUNNING, its task
    [A] is QUEUED and sits in the scheduler's queue. *)
Definition in_memory_engine : @Engine ListHeap :=
  mkEngine
    (mkManager false None
       {["W"%string :=
           mkWorkflowDoc "W" [task_def "A" []] "RUNNING" 0 1 (Some 1) None
             1 0 0 None None None]}
       {[task_key "W" "A" :=
           mkTaskDoc "W" "A" (task_def "A" []) "QUEUED" 0 1 (Some 1) None 0
             0 0 (Some "X"%string) (Some "run"%string) None [] None None
             false]}
       [] (mkManagerStats 1 0 0 1 0 0))
    (snd (Scheduler.enqueue
            (Scheduler.init (mkSchedulerConfig None None None)
               (mkRedisStore None "scheduler"))
            task_A 1 1))
    (Retry.init (mkRetryConfig None None None None)
       (mkRedisStore None "retry_tracker"))
    None.




(** A retry tracker with the default settings and Redis reachable. *)
Definition default_tracker : RetryTracker :=
  Retry.init (mkRetryConfig None None None None) (connected "retry_tracker").

Definition with_retries (n : nat) : TaskMeta :=
  mkTaskMeta (Some "W"%string) (Some "A"%string) (Some "X"%string)
    (Some "run"%string) None [] (Some (1 # 2)) None (Some n)
    (Some (n + 1)%nat) None None None None None None None
    (Some "{}"%string) (Some 1).

(** A pool whose store holds the estimate 100 s for [X:run]. *)
Definition pool_with_estimate : @Worker.WorkerPool ListHeap :=
  Worker.mkWorkerPool "X"
    (Scheduler.init (mkSchedulerConfig None None None)
       (mkRedisStore
          (Some (mkRedisDb ∅ {[ert_key "X" "run" := 100]}))
          "scheduler"))
    default_tracker true [Worker.mkWorkerStats 0 0 0 0 None false] [].

(** Scenario S6 in small: two tasks of priority 0.1 then 0.9, both
    ready; the one of priority 0.9 has the lower score and leaves first. *)
Definition prioritized (id : string) (priority : Q) : TaskMeta :=
  mkTaskMeta (Some "W"%string) (Some id) (Some "X"%string)
    (Some "run"%string) None [] (Some priority) None (Some 0%nat)
    (Some 1%nat) None None None None None None None (Some "{}"%string)
    (Some 0).

Definition two_ready : @PriorityQueueScheduler ListHeap :=
  let s0 := Scheduler.init (mkSchedulerConfig None None None)
              (connected "scheduler") in
  let s1 := snd (enqueue s0 (prioritized "low" (1 # 10)) 0 0) in
  snd (enqueue s1 (prioritized "high" (9 # 10)) 0 1).

(** * Vocabulary of the further properties *)

(** The statistic [current_queue_size] agrees with the queue. *)
Definition size_recorded `{HeapQ} (self : PriorityQueueScheduler) : Prop :=
  current_queue_size (Scheduler.stats self)
  = length (contents (sched_heap self)).

(** The order of a listing of the queue. *)
Definition score_le (a b : ScoredTask) : Prop := score_of a <= score_of b.

(** The order of the entries of a sorted set. *)
Definition by_score (a b : string * Q) : Prop := snd a <= snd b.

(** Successive calls of [schedule] for one task, each with its error text
    and clock reading: the answers in order, and the tracker and the task
    metadata after the last call. *)
Fixpoint schedule_each (self : RetryTracker) (tm : TaskMeta)
  (calls : list (option string * Q)) : list bool * RetryTracker * TaskMeta :=
  match calls with
  | [] => ([], self, tm)
  | (error_context, now) :: rest =>
      let '(ok, self1, tm1) := schedule self tm error_context now in
      let '(oks, self2, tm2) := schedule_each self1 tm1 rest in
      (ok :: oks, self2, tm2)
  end.

(** A worker's counters add up. *)
Definition counted (s : Worker.WorkerStats) : Prop :=
  Worker.tasks_executed s
  = (Worker.tasks_succeeded s + Worker.tasks_failed s)%nat.







(** The values of the enumeration [TaskStatus], which are the statuses
    the coordinator writes. *)
Definition task_status_values : list string :=
  [TaskStatus_PENDING; TaskStatus_QUEUED; TaskStatus_RUNNING;
   TaskStatus_COMPLETED; TaskStatus_FAILED; TaskStatus_CANCELLED;
   TaskStatus_RETRY].



(** * Further scenarios *)

(** A delay queue with two retries pending: [A] due at 5, [B] at 20. *)
Definition two_pending : RedisDb :=
  mkRedisDb {["A"%string := 5; "B"%string := 20]} ∅.

Definition pending_tracker : RetryTracker :=
  Retry.init (mkRetryConfig None None None None)
    (mkRedisStore (Some two_pending) "retry_tracker").

(** A pool of one worker for agent [X] on the queue of [two_ready]. *)
Definition pool_two_ready : @Worker.WorkerPool ListHeap :=
  Worker.mkWorkerPool "X" two_ready default_tracker true
    [Worker.mkWorkerStats 0 0 0 0 None false] [].



(** Five failures of one task in a row. *)
Definition five_failures : list (option string * Q) :=
  [(Some "timeout"%string, 0); (Some "timeout"%string, 100);
   (Some "timeout"%string, 200); (Some "timeout"%string, 300);
   (Some "timeout"%string, 400)].

(** * Properties *)

(** ** The score (scheduler.py, state.py) *)

Lemma get_ert_stored (store : RedisStore) (agent action : string) (d : Q) :
  get_ert store agent action d = get (stored_ert store agent action) d.
Proof.
  unfold get_ert, stored_ert, get.
  destruct (r store) as [db |]; [| reflexivity].
  destruct (ert db !! ert_key agent action); reflexivity.
Qed.

(** The divisor of the runtime term is never zero, so the fallback of the
    [except] branch of [score] is never taken. *)
Lemma score_divisor_positive (x : Q) : 0 < Qmax x 1.
Proof.
  apply Qlt_le_trans with 1; [reflexivity | apply Q.le_max_r].
Qed.

(** C2: the score of a task is
    [-(alpha / max(ERT, 1) + beta * user_priority + gamma * urgency)], with
    ERT the stored estimate of the task's (agent, action) pair or 60 when
    none is stored, and urgency [1 / max(deadline - now, 1)] when a
    deadline is set and 0 otherwise; an entry of lower score is ordered
    before one of higher score. *)
Theorem score_formula `{HeapQ} (self : PriorityQueueScheduler)
  (tm : TaskMeta) (now : Q) :
  score self tm now
  = - (α self / Qmax (ERT self tm) 1
       + β self * user_priority_of tm
       + γ self * urgency_of tm now)
  /\ (stored_ert (Scheduler.redis self)
        (get (tm_agent tm) "unknown"%string)
        (get (tm_action tm) "unknown"%string) = None ->
      ERT self tm = 60)
  /\ (forall d, deadline_of tm = Some d ->
      urgency_of tm now = 1 / Qmax (d - now) 1)
  /\ (deadline_of tm = None -> urgency_of tm now = 0)
  /\ (forall a b : ScoredTask,
      score_of a < score_of b -> ScoredTask_lt a b = true).
Proof.
  repeat split.
  - unfold score, ERT, user_priority_of, urgency_of, deadline_of.
    rewrite get_ert_stored. unfold get.
    destruct (stored_ert _ _ _); destruct (tm_deadline_ts tm) as [d |];
      try destruct (Qeq_bool d 0); reflexivity.
  - intros Hnone. unfold ERT. rewrite Hnone. reflexivity.
  - intros d Hd. unfold urgency_of. rewrite Hd. reflexivity.
  - intros Hd. unfold urgency_of. rewrite Hd. reflexivity.
  - intros a b Hlt. apply ScoredTask_lt_iff. left. exact Hlt.
Qed.

(** ** Retry scheduling (retry_tracker.py) *)

Lemma schedule_abandon (self : RetryTracker) (tm : TaskMeta)
  (error_context : option string) (now : Q) :
  (max_retries self <= get (tm_retries tm) 0)%nat ->
  schedule self tm error_context now
  = (false,
     mkRetryTracker (max_retries self) (backoff_base_s self)
       (backoff_max_s self) (redis self) (is_running self)
       (poll_interval self)
       (mkRetryStats (retries_scheduled (Retry.stats self))
          (retries_executed (Retry.stats self))
          (S (retries_abandoned (Retry.stats self)))
          (current_pending (Retry.stats self))),
     tm).
Proof.
  intros Hmax. unfold schedule.
  apply Nat.leb_le in Hmax. rewrite Hmax. reflexivity.
Qed.

Lemma schedule_retry (self : RetryTracker) (tm : TaskMeta)
  (error_context : option string) (now : Q) (db : RedisDb) :
  (get (tm_retries tm) 0 < max_retries self)%nat ->
  r (redis self) = Some db ->
  exists self' tm',
    schedule self tm error_context now = (true, self', tm')
    /\ tm_retries tm' = Some (get (tm_retries tm) 0 + 1)%nat
    /\ tm_last_error tm' = error_context
    /\ tm_retry_timestamp tm'
       = Some (now + backoff_delay self (get (tm_retries tm) 0%nat))
    /\ r (redis self')
       = Some (mkRedisDb
                 (<[get (tm_task_id tm) "unknown"%string :=
                      now + backoff_delay self (get (tm_retries tm) 0%nat)]>
                    (retry_q db))
                 (ert db))
    /\ max_retries self' = max_retries self
    /\ backoff_base_s self' = backoff_base_s self
    /\ backoff_max_s self' = backoff_max_s self.
Proof.
  intros Hlt Hdb. unfold schedule.
  apply Nat.leb_gt in Hlt. rewrite Hlt.
  unfold zadd_retry. rewrite Hdb. simpl.
  eexists _, _. repeat split; reflexivity.
Qed.


(** C10: when the retry count has reached [max_retries], [schedule]
    returns false, the task metadata is the one it was given (no
    [retries], [last_error] or [retry_timestamp] is written) and the store
    holding the delay queue is unchanged, as is the configuration; the one
    thing written is the diagnostic counter [retries_abandoned]. *)
Theorem schedule_abandon_leaves_state (self : RetryTracker) (tm : TaskMeta)
  (error_context : option string) (now : Q) :
  (max_retries self <= get (tm_retries tm) 0)%nat ->
  exists self',
    schedule self tm error_context now = (false, self', tm)
    /\ redis self' = redis self
    /\ max_retries self' = max_retries self
    /\ backoff_base_s self' = backoff_base_s self
    /\ backoff_max_s self' = backoff_max_s self
    /\ is_running self' = is_running self
    /\ poll_interval self' = poll_interval self
    /\ retries_scheduled (Retry.stats self')
       = retries_scheduled (Retry.stats self)
    /\ retries_executed (Retry.stats self')
       = retries_executed (Retry.stats self)
    /\ current_pending (Retry.stats self')
       = current_pending (Retry.stats self).
Proof.
  intros Hmax. eexists. split.
  - apply schedule_abandon. exact Hmax.
  - repeat split; reflexivity.
Qed.

(** ** Runtime estimates (state.py, worker_pool.py) *)










(** ** Dequeueing (scheduler.py) *)

(** Equality of entries is reflexive: an entry is never [!=] itself. *)
Lemma opt_eqb_refl {A} (eqb : A -> A -> bool) (o : option A) :
  (forall x, eqb x x = true) -> opt_eqb eqb o o = true.
Proof. intros Hrefl. destruct o; simpl; auto. Qed.

Lemma list_eqb_refl {A} (eqb : A -> A -> bool) (l : list A) :
  (forall x, eqb x x = true) -> list_eqb eqb l l = true.
Proof.
  intros Hrefl. induction l as [| x l IH]; simpl; [reflexivity |].
  rewrite Hrefl, IH. reflexivity.
Qed.

Lemma Qeq_bool_refl' (q : Q) : Qeq_bool q q = true.
Proof. apply Qeq_bool_iff. reflexivity. Qed.

Lemma TaskMeta_eqb_refl (tm : TaskMeta) : TaskMeta_eqb tm tm = true.
Proof.
  unfold TaskMeta_eqb.
  rewrite !(opt_eqb_refl String.eqb) by apply String.eqb_refl.
  rewrite !(opt_eqb_refl Qeq_bool) by apply Qeq_bool_refl'.
  rewrite !(opt_eqb_refl Nat.eqb) by apply Nat.eqb_refl.
  rewrite (list_eqb_refl String.eqb) by apply String.eqb_refl.
  reflexivity.
Qed.

Lemma ScoredTask_eqb_refl (t : ScoredTask) : ScoredTask_eqb t t = true.
Proof.
  unfold ScoredTask_eqb.
  rewrite !Qeq_bool_refl', TaskMeta_eqb_refl. reflexivity.
Qed.

Section SchedulerFacts.
Context {HQ : HeapQ}.

Lemma heappop_length (h : heap) (x : ScoredTask) (h' : heap) :
  heappop h = Some (x, h') ->
  length (contents h) = S (length (contents h')).
Proof.
  intros Hp. apply heappop_contents in Hp.
  apply Permutation_length in Hp. simpl in Hp. lia.
Qed.

(** The separation loop empties the heap: the entries come out in
    ascending order, the matching ones in [matching_tasks] and the others
    in [remaining_tasks]. *)
Lemma separate_spec (a : string) :
  forall (fuel : nat) (h : heap) (m rm : list ScoredTask),
    (length (contents h) <= fuel)%nat ->
    exists M R,
      separate fuel a h m rm = (m ++ M, rm ++ R)
      /\ M ++ R ≡ₚ contents h
      /\ Forall (fun t => agent_matches a t = true) M
      /\ Forall (fun t => agent_matches a t = false) R
      /\ StronglySorted key_le M.
Proof.
  induction fuel as [| fuel IH]; intros h m rm Hlen.
  - exists [], []. simpl. rewrite !app_nil_r.
    destruct (contents h) eqn:E; [| simpl in Hlen; lia].
    repeat split; constructor.
  - simpl. destruct (heappop h) as [[x h'] |] eqn:Hp.
    + pose proof (heappop_length _ _ _ Hp) as Hl.
      pose proof (heappop_contents _ _ _ Hp) as Hperm.
      pose proof (heappop_least _ _ _ Hp) as Hleast.
      assert (Hfuel : (length (contents h') <= fuel)%nat) by lia.
      destruct (agent_matches a x) eqn:Hm.
      * destruct (IH h' (m ++ [x]) rm Hfuel)
          as (M & R & Heq & HP & HM & HR & HS).
        exists (x :: M), R. rewrite Heq, <- app_assoc. simpl.
        split; [reflexivity |]. split; [| split; [| split]].
        -- rewrite <- Hperm. constructor. exact HP.
        -- constructor; assumption.
        -- exact HR.
        -- constructor; [exact HS |].
           apply Forall_forall. intros y Hy.
           apply ScoredTask_lt_false_iff.
           rewrite Forall_forall in Hleast. apply Hleast.
           rewrite <- Hperm. right. rewrite <- HP.
           apply elem_of_app. left. exact Hy.
      * destruct (IH h' m (rm ++ [x]) Hfuel)
          as (M & R & Heq & HP & HM & HR & HS).
        exists M, (x :: R). rewrite Heq, <- app_assoc. simpl.
        split; [reflexivity |]. split; [| split; [| split]].
        -- rewrite <- Hperm, <- HP. symmetry. apply Permutation_middle.
        -- exact HM.
        -- constructor; assumption.
        -- exact HS.
    + apply heappop_empty in Hp. exists [], []. rewrite !app_nil_r, Hp.
      repeat split; constructor.
Qed.

Lemma min_by_score_first (first : ScoredTask) (others : list ScoredTask) :
  Forall (key_le first) others -> min_by_score first others = first.
Proof.
  induction others as [| t others IH]; intros Hall; simpl; [reflexivity |].
  inversion Hall as [| ? ? Ht Hrest]; subst.
  assert (Hf : Qlt_bool (score_of t) (score_of first) = false).
  { apply Qlt_bool_false_iff. apply key_le_score. exact Ht. }
  rewrite Hf. apply IH. exact Hrest.
Qed.

Lemma put_back_contents (best : ScoredTask) (M : list ScoredTask) :
  forall h : heap,
    contents (put_back h best M)
    ≡ₚ contents h ++ filter (fun t => ScoredTask_eqb t best = false) M.
Proof.
  induction M as [| t M IH]; intros h; simpl.
  - rewrite app_nil_r. reflexivity.
  - destruct (ScoredTask_eqb t best) eqn:E; simpl.
    + rewrite filter_cons_False by (rewrite E; discriminate). apply IH.
    + rewrite filter_cons_True by exact E.
      rewrite IH, heappush_contents.
      rewrite <- Permutation_middle. reflexivity.
Qed.

(** A filtered dequeue: what is returned and what is left in the heap. *)
Lemma dequeue_entry_filtered (self : PriorityQueueScheduler) (a : string) :
  a <> ""%string ->
  exists M R self',
    dequeue_entry self (Some a) = (head M, self')
    /\ M ++ R ≡ₚ contents (sched_heap self)
    /\ Forall (fun t => agent_matches a t = true) M
    /\ Forall (fun t => agent_matches a t = false) R
    /\ StronglySorted key_le M
    /\ contents (sched_heap self')
       ≡ₚ R ++ match M with
               | [] => []
               | x :: _ => filter (fun t => ScoredTask_eqb t x = false) M
               end.
Proof.
  intros Ha. unfold dequeue_entry.
  destruct (contents (sched_heap self)) as [| e l] eqn:Hc.
  - exists [], [], self. rewrite Hc. repeat split; constructor.
  - destruct a as [| c a]; [congruence |]. rewrite <- Hc.
    destruct (separate_spec (String c a) (length (contents (sched_heap self)))
                (sched_heap self) [] [] (le_n _))
      as (M & R & Heq & HP & HM & HR & HS).
    simpl in Heq. rewrite Heq.
    destruct M as [| first others].
    + eexists [], R, _. split; [reflexivity |].
      repeat split; try assumption. simpl.
      rewrite app_nil_r. apply heapify_contents.
    + inversion HS as [| ? ? HS' Hall]; subst.
      rewrite (min_by_score_first first others Hall).
      eexists (first :: others), R, _. split; [reflexivity |].
      repeat split; try assumption.
      unfold _update_dequeue_stats. cbn [sched_heap].
      rewrite put_back_contents, heapify_contents. reflexivity.
Qed.

(** An unfiltered dequeue pops the heap. *)
Lemma dequeue_entry_unfiltered (self : PriorityQueueScheduler)
  (f : option string) :
  f = None \/ f = Some ""%string ->
  match heappop (sched_heap self) with
  | Some (x, h') =>
      dequeue_entry self f = (Some x, _update_dequeue_stats self h')
  | None => dequeue_entry self f = (None, self)
  end.
Proof.
  intros Hf. unfold dequeue_entry.
  destruct (heappop (sched_heap self)) as [[x h'] |] eqn:Hp.
  - destruct (contents (sched_heap self)) eqn:Hc.
    + apply heappop_empty in Hc. congruence.
    + destruct Hf as [-> | ->]; reflexivity.
  - apply heappop_empty in Hp. rewrite Hp. reflexivity.
Qed.

(** The entry handed out by [dequeue] is a least one among those the
    filter selects; nothing is handed out only when the filter selects
    nothing; and the heap never gains an entry. *)
Lemma dequeue_entry_spec (self : PriorityQueueScheduler) (f : option string) :
  let queue := contents (sched_heap self) in
  match dequeue_entry self f with
  | (Some x, self') =>
      x ∈ queue /\ selects f x = true
      /\ (forall y, y ∈ queue -> selects f y = true -> key_le x y)
      /\ (forall y, y ∈ contents (sched_heap self') -> y ∈ queue)
  | (None, self') =>
      (forall y, y ∈ queue -> selects f y = false)
      /\ (forall y, y ∈ contents (sched_heap self') -> y ∈ queue)
  end.
Proof.
  intros queue.
  assert (Hcases : (f = None \/ f = Some ""%string)
                   \/ exists a, f = Some a /\ a <> ""%string).
  { destruct f as [[| c a] |]; [tauto | right | tauto].
    eexists. split; [reflexivity | discriminate]. }
  destruct Hcases as [Hf | (a & -> & Ha)].
  - pose proof (dequeue_entry_unfiltered self f Hf) as Hd.
    assert (Hsel : forall y, selects f y = true).
    { intros y. destruct Hf as [-> | ->]; reflexivity. }
    destruct (heappop (sched_heap self)) as [[x h'] |] eqn:Hp; rewrite Hd.
    + pose proof (heappop_contents _ _ _ Hp) as Hperm.
      pose proof (heappop_least _ _ _ Hp) as Hleast.
      split; [| split; [| split]].
      * subst queue. rewrite <- Hperm. left.
      * apply Hsel.
      * intros y Hy _. apply ScoredTask_lt_false_iff.
        rewrite Forall_forall in Hleast. apply Hleast. exact Hy.
      * intros y Hy. subst queue. rewrite <- Hperm. right. exact Hy.
    + apply heappop_empty in Hp. subst queue. rewrite Hp.
      split; [| tauto]. intros y Hy. inversion Hy.
  - destruct (dequeue_entry_filtered self a Ha)
      as (M & R & self' & Hd & HP & HM & HR & HS & Hleft).
    rewrite Hd.
    assert (Hsel : forall y, selects (Some a) y = agent_matches a y).
    { intros y. destruct a; [congruence | reflexivity]. }
    assert (Hsub : forall y, y ∈ contents (sched_heap self') -> y ∈ queue).
    { intros y Hy. subst queue. rewrite <- HP. rewrite Hleft in Hy.
      apply elem_of_app in Hy. apply elem_of_app.
      destruct Hy as [Hy | Hy]; [right; exact Hy | left].
      destruct M; [inversion Hy |].
      apply list_elem_of_filter in Hy. tauto. }
    destruct M as [| x M']; cbn [head].
    + split; [| exact Hsub]. intros y Hy. rewrite Hsel.
      subst queue. rewrite <- HP in Hy. simpl in Hy.
      rewrite Forall_forall in HR. apply HR. exact Hy.
    + inversion HS as [| ? ? HS' Hall]; subst.
      inversion HM as [| ? ? Hx HM']; subst.
      split; [| split; [| split]].
      * subst queue. rewrite <- HP. left.
      * rewrite Hsel. exact Hx.
      * intros y Hy Hsy. rewrite Hsel in Hsy.
        subst queue. rewrite <- HP in Hy. simpl in Hy.
        apply elem_of_cons in Hy. destruct Hy as [-> | Hy].
        -- apply key_le_refl.
        -- apply elem_of_app in Hy. destruct Hy as [Hy | Hy].
           ++ rewrite Forall_forall in Hall. apply Hall. exact Hy.
           ++ rewrite Forall_forall in HR. apply HR in Hy. congruence.
      * exact Hsub.
Qed.

End SchedulerFacts.

Lemma dequeue_run_sorted `{HeapQ} (n : nat) :
  forall (self : PriorityQueueScheduler) (f : option string),
    Sorted key_le (dequeue_run n self f)
    /\ Forall (fun x => x ∈ contents (sched_heap self)
                        /\ selects f x = true)
         (dequeue_run n self f).
Proof.
  induction n as [| n IH]; intros self f; simpl.
  - split; constructor.
  - pose proof (dequeue_entry_spec self f) as Hspec. simpl in Hspec.
    destruct (dequeue_entry self f) as [[x |] self'].
    + destruct Hspec as (Hin & Hsel & Hleast & Hsub).
      destruct (IH self' f) as [Hsorted Hall].
      split.
      * constructor; [exact Hsorted |].
        destruct (dequeue_run n self' f) as [| y run]; constructor.
        inversion Hall as [| ? ? [Hy Hsy] _]; subst.
        apply Hleast; [apply Hsub; exact Hy | exact Hsy].
      * constructor; [tauto |].
        eapply Forall_impl; [exact Hall |].
        intros y [Hy Hsy]. split; [apply Hsub; exact Hy | exact Hsy].
    + split; constructor.
Qed.

(** C3: [dequeue] hands out the task of a least entry, in the order
    [(score, enqueue_time)], among the entries that the filter selects:
    those of the named agent for a filter, all entries without one.  It
    answers empty only when no entry is selected (for no filter: when the
    queue is empty).  Hence the entries handed out by successive dequeues
    with one filter come in nondecreasing [(score, enqueue_time)] order. *)
Theorem dequeue_returns_least `{HeapQ} (self : PriorityQueueScheduler)
  (agent_filter : option string) :
  let queue := contents (sched_heap self) in
  (forall x, fst (dequeue_entry self agent_filter) = Some x ->
     x ∈ queue /\ selects agent_filter x = true
     /\ forall y, y ∈ queue -> selects agent_filter y = true ->
          score_of x <= score_of y
          /\ (score_of x == score_of y -> enqueue_time x <= enqueue_time y))
  /\ (fst (dequeue_entry self agent_filter) = None ->
      forall y, y ∈ queue -> selects agent_filter y = false)
  /\ (forall y, y ∈ queue -> selects agent_filter y = true ->
      exists x, fst (dequeue_entry self agent_filter) = Some x)
  /\ fst (dequeue self agent_filter)
     = option_map task_meta (fst (dequeue_entry self agent_filter))
  /\ (forall n, Sorted key_le (dequeue_run n self agent_filter)).
Proof.
  intros queue.
  pose proof (dequeue_entry_spec self agent_filter) as Hspec.
  simpl in Hspec. fold queue in Hspec.
  split; [| split; [| split; [| split]]].
  - intros x Hx.
    destruct (dequeue_entry self agent_filter) as [[x' |] self'];
      simpl in Hx; [| discriminate].
    injection Hx as ->.
    destruct Hspec as (Hin & Hsel & Hleast & _).
    split; [exact Hin |]. split; [exact Hsel |].
    intros y Hy Hsy. specialize (Hleast y Hy Hsy).
    split; [apply key_le_score; exact Hleast |].
    intros Heq. destruct Hleast as [Hlt | [_ Ht]]; [lra | exact Ht].
  - intros Hnone.
    destruct (dequeue_entry self agent_filter) as [[x' |] self'];
      simpl in Hnone; [discriminate |].
    apply Hspec.
  - intros y Hy Hsy.
    destruct (dequeue_entry self agent_filter) as [[x' |] self'].
    + exists x'. reflexivity.
    + destruct Hspec as [Hnone _]. rewrite (Hnone y Hy) in Hsy.
      discriminate.
  - unfold dequeue.
    destruct (dequeue_entry self agent_filter) as [e self']. reflexivity.
  - intros n. apply dequeue_run_sorted.
Qed.

(** Two entries of a two-element queue that are both [e]. *)
Lemma Permutation_pair_same {A} (e : A) (l : list A) :
  l ≡ₚ [e; e] -> l = [e; e].
Proof.
  intros Hperm.
  pose proof (Permutation_length Hperm) as Hlen.
  destruct l as [| a [| b [| c l]]]; simpl in Hlen; try lia.
  assert (Ha : a ∈ [e; e]) by (rewrite <- Hperm; left).
  assert (Hb : b ∈ [e; e]) by (rewrite <- Hperm; right; left).
  assert (Hmem : forall z : A, z ∈ [e; e] -> z = e).
  { intros z Hz. apply elem_of_cons in Hz. destruct Hz as [-> | Hz];
      [reflexivity |].
    apply elem_of_cons in Hz. destruct Hz as [-> | Hz];
      [reflexivity | inversion Hz]. }
  rewrite (Hmem a Ha), (Hmem b Hb). reflexivity.
Qed.

(** C9 does not hold of the code.  The same task metadata is enqueued
    twice under one reading of the clock, so that the two entries are
    equal; the queue then holds two entries.  One dequeue filtered on the
    task's agent hands the task out once and leaves the queue empty: the
    loop that puts the other matching entries back skips every entry that
    is [==] to the one returned, and the second copy is lost.  This holds
    for every implementation of the heap. *)
Theorem filtered_dequeue_loses_duplicate `{HeapQ} :
  let s0 := Scheduler.init (mkSchedulerConfig None None None)
              (mkRedisStore None "scheduler") in
  let s1 := snd (enqueue s0 duplicate_task 100 100) in
  let s2 := snd (enqueue s1 duplicate_task 100 100) in
  length (contents (sched_heap s2)) = 2%nat
  /\ exists s3,
       dequeue s2 (Some "eda_agent"%string) = (Some duplicate_task, s3)
       /\ contents (sched_heap s3) = [].
Proof.
  intros s0 s1 s2.
  set (e := mkScoredTask (score s0 duplicate_task 100) 100 duplicate_task).
  assert (Hq : contents (sched_heap s2) ≡ₚ [e; e]).
  { subst s2 s1. unfold enqueue. cbn [snd sched_heap].
    rewrite heappush_contents. constructor.
    rewrite heappush_contents. constructor.
    subst s0. unfold Scheduler.init. cbn [sched_heap].
    apply heapify_contents. }
  split; [rewrite (Permutation_length Hq); reflexivity |].
  destruct (dequeue_entry_filtered s2 "eda_agent")
    as (M & R & s3 & Hd & HP & HM & HR & _ & Hleft); [discriminate |].
  rewrite Hq in HP.
  assert (Hmatch : agent_matches "eda_agent" e = true) by reflexivity.
  assert (HR0 : R = []).
  { destruct R as [| y R]; [reflexivity |].
    assert (Hy : y ∈ [e; e]) by (rewrite <- HP; apply elem_of_app; right; left).
    inversion HR as [| ? ? Hny _]; subst.
    apply elem_of_cons in Hy. destruct Hy as [-> | Hy]; [congruence |].
    apply elem_of_cons in Hy. destruct Hy as [-> | Hy];
      [congruence | inversion Hy]. }
  subst R. rewrite app_nil_r in HP.
  apply Permutation_pair_same in HP. subst M.
  exists s3. unfold dequeue. rewrite Hd. cbn [head option_map task_meta].
  split; [reflexivity |].
  apply Permutation_nil_r. rewrite Hleft. simpl app.
  rewrite !filter_cons_False
    by (rewrite ScoredTask_eqb_refl; discriminate).
  reflexivity.
Qed.

(** ** Failed agent calls (worker_pool.py) *)




(** ** The coordinator (workflow_manager.py) *)


Lemma find_one_update_one {A} (p : A -> bool) (f : A -> A) (l : list A)
  (x : A) :
  find_one p l = Some x ->
  p (f x) = true ->
  find_one p (update_one p f l) = Some (f x).
Proof.
  unfold find_one. induction l as [| y l IH]; intros Hfind Hp;
    [discriminate |].
  simpl in *. destruct (p y) eqn:Hy.
  - injection Hfind as ->. simpl. rewrite Hp. reflexivity.
  - simpl. rewrite Hy. apply IH; assumption.
Qed.

Lemma find_one_holds {A} (p : A -> bool) (l : list A) (x : A) :
  find_one p l = Some x -> p x = true.
Proof. intros Hfind. apply List.find_some in Hfind. tauto. Qed.


(** On the Mongo path [cancel_workflow] never reports success: a request
    that is not rejected performs the updates and then fails on the
    undefined [_send_event]. *)
Lemma cancel_workflow_mongo_reports_failure `{HeapQ} (e : Engine) (d : Db)
  (run_id reason : string) (force : bool) (cancelled_by : string) (now : Q) :
  use_mongo (manager e) = true ->
  db (manager e) = Some d ->
  fst (cancel_workflow e run_id reason force cancelled_by now) = false.
Proof.
  intros Hm Hdb. unfold cancel_workflow. rewrite Hm, Hdb.
  destruct (find_one (is_run run_id) (runs d)) as [w |]; [| reflexivity].
  destruct (str_in (wf_status w) _); reflexivity.
Qed.




(** A request on the Mongo path that the terminal-status test lets
    through overwrites the workflow status with CANCELLING.  The test
    compares with the upper-case names, so it lets through every status
    that the coordinator writes, which are the lower-case enumeration
    values. *)
Lemma cancel_workflow_overwrites_status `{HeapQ} (e : Engine) (d : Db)
  (w : WorkflowDoc) (run_id reason : string) (force : bool)
  (cancelled_by : string) (now : Q) :
  use_mongo (manager e) = true ->
  db (manager e) = Some d ->
  find_one (is_run run_id) (runs d) = Some w ->
  wf_status w = WorkflowStatus_COMPLETED
  \/ wf_status w = WorkflowStatus_FAILED
  \/ wf_status w = WorkflowStatus_CANCELLED ->
  exists d' w',
    db (manager (snd (cancel_workflow e run_id reason force cancelled_by
                        now))) = Some d'
    /\ find_one (is_run run_id) (runs d') = Some w'
    /\ wf_status w' = "CANCELLING"%string.
Proof.
  intros Hm Hdb Hw Hstatus.
  unfold cancel_workflow. rewrite Hm, Hdb, Hw.
  assert (Hpass : str_in (wf_status w)
                    ["COMPLETED"; "FAILED"; "CANCELLED"]%string = false).
  { destruct Hstatus as [-> | [-> | ->]]; reflexivity. }
  rewrite Hpass.
  eexists _, _.
  cbn [snd manager db set_db runs].
  split; [reflexivity |]. split.
  - apply find_one_update_one; [exact Hw |].
    exact (find_one_holds _ _ _ Hw).
  - reflexivity.
Qed.








(** The backoff delays of the default settings: 15, 30, 60 seconds. *)
Example default_backoff_delays :
  backoff_delay default_tracker 0 == 15
  /\ backoff_delay default_tracker 1 == 30
  /\ backoff_delay default_tracker 2 == 60
  /\ backoff_delay default_tracker 5 == 300.
Proof. vm_compute. repeat split. Qed.


(** A task that has used its three retries is abandoned as it is. *)
Lemma schedule_abandon_leaves_state_witness :
  exists self',
    schedule default_tracker (with_retries 3) (Some "timeout"%string) 1000
    = (false, self', with_retries 3)
    /\ redis self' = redis default_tracker.
Proof.
  destruct (schedule_abandon_leaves_state default_tracker (with_retries 3)
              (Some "timeout"%string) 1000) as (self' & Hs & Hr & _).
  - vm_compute. lia.
  - exists self'. split; [exact Hs | exact Hr].
Defined.

(** Without Redis nothing can be scheduled: [schedule] answers false, and
    has already written the retry fields of the task metadata. *)
Lemma schedule_without_store (self : RetryTracker) (tm : TaskMeta)
  (error_context : option string) (now : Q) :
  (get (tm_retries tm) 0 < max_retries self)%nat ->
  r (redis self) = None ->
  fst (fst (schedule self tm error_context now)) = false
  /\ tm_retries (snd (schedule self tm error_context now))
     = Some (get (tm_retries tm) 0 + 1)%nat.
Proof.
  intros Hlt Hnone. unfold schedule.
  apply Nat.leb_gt in Hlt. rewrite Hlt.
  unfold zadd_retry. rewrite Hnone. split; reflexivity.
Qed.


(** The estimate after two observations of 10 s from 100 s: 54.1 s. *)
Example two_observations :
  get_ert
    (observe "X" "run" 10 2
       (Scheduler.redis (Worker.scheduler pool_with_estimate)))
    "X" "run" 60 == 541 # 10.
Proof. vm_compute. reflexivity. Qed.

Example priority_order :
  map (fun t => tm_task_id (task_meta t))
    (dequeue_run 3 two_ready (Some "X"%string))
  = [Some "high"; Some "low"]%string
  /\ score two_ready (prioritized "high" (9 # 10)) 0 == - (1 # 60) - (18 # 10)
  /\ fst (dequeue two_ready (Some "Y"%string)) = None.
Proof. vm_compute. repeat split. Qed.


Lemma update_many_lookup {A} (p : A -> bool) (f : A -> A) (l : list A) :
  forall (i : nat) (x : A),
    l !! i = Some x ->
    update_many p f l !! i = Some (if p x then f x else x).
Proof.
  induction l as [| y l IH]; intros i x Hi; [discriminate |].
  destruct i as [| i]; simpl in *.
  - injection Hi as ->. reflexivity.
  - apply IH. exact Hi.
Qed.

(** On the Mongo path an accepted request cancels the PENDING and QUEUED
    task documents of the run as well, before the call fails on
    [_send_event]. *)
Lemma cancel_workflow_mongo_tasks `{HeapQ} (e : Engine) (d : Db)
  (w : WorkflowDoc) (run_id reason : string) (force : bool)
  (cancelled_by : string) (now : Q) :
  use_mongo (manager e) = true ->
  db (manager e) = Some d ->
  find_one (is_run run_id) (runs d) = Some w ->
  str_in (wf_status w) ["COMPLETED"; "FAILED"; "CANCELLED"]%string = false ->
  exists d',
    db (manager (snd (cancel_workflow e run_id reason force cancelled_by
                        now))) = Some d'
    /\ forall i t,
         tasks d !! i = Some t ->
         td_run_id t = run_id ->
         td_status t = "PENDING"%string \/ td_status t = "QUEUED"%string ->
         exists t', tasks d' !! i = Some t'
                    /\ td_status t' = "CANCELLED"%string.
Proof.
  intros Hm Hdb Hw Hpass.
  unfold cancel_workflow. rewrite Hm, Hdb, Hw, Hpass.
  eexists. cbn [snd manager db set_db tasks].
  split; [reflexivity |].
  intros i t Hi Hrun Hstatus.
  cbn [tasks].
  rewrite (update_many_lookup _ _ _ i _
             (update_many_lookup _ _ _ i t Hi)).
  assert (Hsel : String.eqb (td_run_id t) run_id
                 && str_in (td_status t) ["PENDING"; "QUEUED"]%string
                 = true).
  { rewrite Hrun, String.eqb_refl.
    destruct Hstatus as [-> | ->]; reflexivity. }
  rewrite Hsel. cbn [td_run_id td_status].
  rewrite Hrun, String.eqb_refl. cbn [andb String.eqb Ascii.eqb Bool.eqb].
  eexists. split; reflexivity.
Qed.

(** * Further properties *)

Import StateExt SchedulerExt.

(** ** Lists *)

Lemma List_filter_stdpp {A} (f : A -> bool) (l : list A) :
  List.filter f l = filter (fun x => f x = true) l.
Proof.
  induction l as [| x l IH]; [reflexivity |].
  simpl. destruct (f x) eqn:E.
  - rewrite filter_cons_True by exact E. rewrite IH. reflexivity.
  - rewrite filter_cons_False by (rewrite E; discriminate). exact IH.
Qed.

Lemma List_filter_Permutation {A} (f : A -> bool) (l k : list A) :
  l ≡ₚ k -> List.filter f l ≡ₚ List.filter f k.
Proof. intros Hp. rewrite !List_filter_stdpp, Hp. reflexivity. Qed.

#[local] Instance List_filter_Proper {A} (f : A -> bool) :
  Proper (Permutation ==> Permutation) (List.filter f).
Proof. intros l k Hp. apply List_filter_Permutation. exact Hp. Qed.

Lemma List_filter_elem_of {A} (f : A -> bool) (l : list A) (x : A) :
  x ∈ List.filter f l <-> x ∈ l /\ f x = true.
Proof. rewrite !list_elem_of_In. apply List.filter_In. Qed.

Lemma List_filter_split {A} (f : A -> bool) (l : list A) :
  l ≡ₚ List.filter f l ++ List.filter (fun x => negb (f x)) l.
Proof.
  induction l as [| x l IH]; [reflexivity |].
  simpl. destruct (f x); simpl.
  - constructor. exact IH.
  - rewrite <- Permutation_middle. constructor. exact IH.
Qed.

Lemma List_filter_length_lt {A} (f : A -> bool) (l : list A) :
  (length (List.filter f l) < length l)%nat
  <-> exists x, x ∈ l /\ f x = false.
Proof.
  induction l as [| x l IH]; simpl.
  - split; [lia | intros (x & Hx & _); inversion Hx].
  - pose proof (List.filter_length_le f l) as Hle.
    destruct (f x) eqn:E; simpl.
    + rewrite <- Nat.succ_lt_mono, IH. split.
      * intros (y & Hy & Hf). exists y. split; [right; exact Hy | exact Hf].
      * intros (y & Hy & Hf). apply elem_of_cons in Hy.
        destruct Hy as [-> | Hy]; [congruence |].
        exists y. split; assumption.
    + split; [| lia]. intros _. exists x. split; [left | exact E].
Qed.

Lemma List_filter_all {A} (f : A -> bool) (l : list A) :
  Forall (fun x => f x = true) l -> List.filter f l = l.
Proof.
  induction 1 as [| x l Hx _ IH]; [reflexivity |].
  simpl. rewrite Hx, IH. reflexivity.
Qed.

Lemma List_filter_ext_Forall {A} (f g : A -> bool) (l : list A) :
  Forall (fun x => f x = g x) l -> List.filter f l = List.filter g l.
Proof.
  induction 1 as [| x l Hx _ IH]; [reflexivity |].
  simpl. rewrite Hx, IH. reflexivity.
Qed.

(** ** The queue beyond [dequeue] (scheduler.py) *)

Lemma opt_eqb_string_Some (o : option string) (s : string) :
  opt_eqb String.eqb o (Some s) = true <-> o = Some s.
Proof.
  destruct o as [t |]; simpl.
  - rewrite String.eqb_eq. split; congruence.
  - split; discriminate.
Qed.

(** X1: [remove_task] takes out of the queue every entry of the given
    task id and no other entry, and answers whether there was one. *)
Theorem remove_task_spec `{HeapQ} (self : PriorityQueueScheduler)
  (task_id : string) :
  let queue := contents (sched_heap self) in
  let after := snd (remove_task self task_id) in
  contents (sched_heap after)
  ≡ₚ List.filter
       (fun t => negb (opt_eqb String.eqb (tm_task_id (task_meta t))
                         (Some task_id)))
       queue
  /\ (forall t, t ∈ contents (sched_heap after) ->
      t ∈ queue /\ tm_task_id (task_meta t) <> Some task_id)
  /\ (forall t, t ∈ queue -> tm_task_id (task_meta t) <> Some task_id ->
      t ∈ contents (sched_heap after))
  /\ (fst (remove_task self task_id) = true
      <-> exists t, t ∈ queue /\ tm_task_id (task_meta t) = Some task_id)
  /\ Scheduler.redis after = Scheduler.redis self.
Proof.
  intros queue after.
  set (keep := fun t : ScoredTask =>
         negb (opt_eqb String.eqb (tm_task_id (task_meta t))
                 (Some task_id))).
  assert (Hkeep : forall t, keep t = true
                            <-> tm_task_id (task_meta t) <> Some task_id).
  { intros t. unfold keep. rewrite negb_true_iff.
    rewrite <- opt_eqb_string_Some.
    destruct (opt_eqb _ _ _); split; congruence. }
  assert (Hc : contents (sched_heap after) ≡ₚ List.filter keep queue).
  { subst after. unfold remove_task. cbn [snd sched_heap].
    apply heapify_contents. }
  split; [exact Hc |]. split; [| split; [| split]].
  - intros t Ht. rewrite Hc in Ht. apply List_filter_elem_of in Ht.
    destruct Ht as [Hin Hk]. split; [exact Hin | apply Hkeep; exact Hk].
  - intros t Hin Hne. rewrite Hc. apply List_filter_elem_of.
    split; [exact Hin | apply Hkeep; exact Hne].
  - unfold remove_task. cbn [fst]. rewrite Nat.ltb_lt.
    rewrite (Permutation_length (heapify_contents _)).
    fold keep. fold queue. rewrite List_filter_length_lt.
    split; intros (t & Hin & Hk); exists t; (split; [exact Hin |]).
    + destruct (keep t) eqn:E; [discriminate |].
      destruct (decide (tm_task_id (task_meta t) = Some task_id)) as [Heq | Hne];
        [exact Heq |].
      apply Hkeep in Hne. congruence.
    + destruct (keep t) eqn:E; [| reflexivity].
      apply Hkeep in E. contradiction.
  - reflexivity.
Qed.

Lemma dequeue_entry_size `{HeapQ} (self : PriorityQueueScheduler)
  (f : option string) :
  match fst (dequeue_entry self f) with
  | Some _ => size_recorded (snd (dequeue_entry self f))
  | None =>
      Scheduler.stats (snd (dequeue_entry self f)) = Scheduler.stats self
      /\ length (contents (sched_heap (snd (dequeue_entry self f))))
         = length (contents (sched_heap self))
  end.
Proof.
  assert (Hcases : (f = None \/ f = Some ""%string)
                   \/ exists a, f = Some a /\ a <> ""%string).
  { destruct f as [[| c a] |]; [tauto | right | tauto].
    eexists. split; [reflexivity | discriminate]. }
  destruct Hcases as [Hf | (a & -> & Ha)].
  - pose proof (dequeue_entry_unfiltered self f Hf) as Hd.
    destruct (heappop (sched_heap self)) as [[x h'] |]; rewrite Hd.
    + reflexivity.
    + split; reflexivity.
  - unfold dequeue_entry.
    destruct (contents (sched_heap self)) as [| e l] eqn:Hc.
    + cbn [fst snd]. split; [reflexivity | rewrite Hc; reflexivity].
    + destruct a as [| c a]; [congruence |]. rewrite <- Hc.
      destruct (separate_spec (String c a)
                  (length (contents (sched_heap self)))
                  (sched_heap self) [] [] (le_n _))
        as (M & R & Heq & HP & _).
      simpl in Heq. rewrite Heq.
      destruct M as [| first others]; cbn [fst snd].
      * split; [reflexivity |]. cbn [sched_heap].
        rewrite (Permutation_length (heapify_contents R)).
        rewrite <- (Permutation_length HP). reflexivity.
      * reflexivity.
Qed.

(** X2: the statistic [current_queue_size] is the length of the queue
    in a fresh scheduler, and [enqueue], [dequeue] (with or without a
    filter, whether or not it finds a task), [remove_task] and [clear]
    keep it so. *)
Theorem queue_size_statistic `{HeapQ} (self : PriorityQueueScheduler)
  (config : SchedulerConfig) (store : RedisStore) (tm : TaskMeta)
  (t_score t_enqueue : Q) (agent_filter : option string)
  (task_id : string) :
  size_recorded self ->
  size_recorded (Scheduler.init config store)
  /\ size_recorded (snd (enqueue self tm t_score t_enqueue))
  /\ size_recorded (snd (dequeue self agent_filter))
  /\ size_recorded (snd (remove_task self task_id))
  /\ size_recorded (clear self).
Proof.
  intros Hinv. unfold size_recorded in *.
  split; [| split; [| split; [| split]]].
  - unfold Scheduler.init. cbn [Scheduler.stats sched_heap current_queue_size].
    rewrite (Permutation_length (heapify_contents [])). reflexivity.
  - reflexivity.
  - pose proof (dequeue_entry_size self agent_filter) as Hd.
    unfold dequeue.
    destruct (dequeue_entry self agent_filter) as [[x |] self'];
      cbn [fst snd] in *.
    + exact Hd.
    + destruct Hd as [Hs Hl]. rewrite Hs, Hl. exact Hinv.
  - unfold remove_task. cbn [snd Scheduler.stats sched_heap].
    destruct (_ <? _)%nat eqn:E; [reflexivity |].
    cbn [current_queue_size]. rewrite Hinv.
    apply Nat.ltb_ge in E.
    rewrite (Permutation_length (heapify_contents _)) in *.
    pose proof (List.filter_length_le
                  (fun task =>
                     negb (opt_eqb String.eqb (tm_task_id (task_meta task))
                             (Some task_id)))
                  (contents (sched_heap self))) as Hle.
    lia.
  - unfold clear. cbn [Scheduler.stats sched_heap current_queue_size].
    rewrite (Permutation_length (heapify_contents [])). reflexivity.
Qed.

(** A list with exactly one element satisfying [p], [x] being one. *)
Lemma List_filter_single {A} (p : A -> bool) (l : list A) (x : A) :
  x ∈ l -> p x = true ->
  length (List.filter p l) = 1%nat ->
  l ≡ₚ x :: List.filter (fun y => negb (p y)) l.
Proof.
  intros Hin Hp Hlen.
  assert (Hx : x ∈ List.filter p l)
    by (apply List_filter_elem_of; split; assumption).
  destruct (List.filter p l) as [| y [| z k]] eqn:E; simpl in Hlen; try lia.
  apply elem_of_cons in Hx. destruct Hx as [-> | Hx]; [| inversion Hx].
  rewrite (List_filter_split p l) at 1. rewrite E. reflexivity.
Qed.

Lemma filter_false_List {A} (f : A -> bool) (l : list A) :
  filter (fun x => f x = false) l = List.filter (fun x => negb (f x)) l.
Proof.
  induction l as [| x l IH]; [reflexivity |].
  simpl. destruct (f x) eqn:E; simpl.
  - rewrite filter_cons_False by (rewrite E; discriminate). exact IH.
  - rewrite filter_cons_True by exact E. rewrite IH. reflexivity.
Qed.

Lemma List_filter_none {A} (f : A -> bool) (l : list A) :
  Forall (fun x => f x = false) l -> List.filter f l = [].
Proof.
  induction 1 as [| x l Hx _ IH]; [reflexivity |].
  simpl. rewrite Hx. exact IH.
Qed.

Lemma selects_named (a : string) (t : ScoredTask) :
  a <> ""%string -> selects (Some a) t = agent_matches a t.
Proof. intros Ha. destruct a; [congruence | reflexivity]. Qed.

Lemma dequeue_entry_none_keeps `{HeapQ} (self : PriorityQueueScheduler)
  (agent_filter : option string) :
  fst (dequeue_entry self agent_filter) = None ->
  contents (sched_heap (snd (dequeue_entry self agent_filter)))
  ≡ₚ contents (sched_heap self).
Proof.
  intros Hnone.
  assert (Hcases : (agent_filter = None \/ agent_filter = Some ""%string)
                   \/ exists a, agent_filter = Some a /\ a <> ""%string).
  { destruct agent_filter as [a |]; [| left; left; reflexivity].
    destruct (decide (a = ""%string)) as [-> | Ha].
    - left. right. reflexivity.
    - right. exists a. split; [reflexivity | exact Ha]. }
  destruct Hcases as [Hf | (a & -> & Ha)].
  - pose proof (dequeue_entry_unfiltered self agent_filter Hf) as Hd.
    destruct (heappop (sched_heap self)) as [[y h'] |] eqn:Hp;
      rewrite Hd in *; cbn [fst snd] in *.
    + discriminate.
    + reflexivity.
  - destruct (dequeue_entry_filtered self a Ha)
      as (M & R & self' & Hd & HP & HM & HR & _ & Hleft).
    rewrite Hd in *. cbn [fst snd] in *.
    destruct M as [| x M']; cbn [head] in *; [| discriminate].
    rewrite Hleft, app_nil_r. exact HP.
Qed.

(** X3: what a dequeue takes out of the queue.  Without a filter it is
    the returned entry and nothing else.  With a filter, the entries of
    the other agents all stay, and of the agent's entries those equal to
    the returned one go; so when the returned entry is the only one of
    its kind, it alone is removed.  A dequeue that returns nothing leaves
    the queue with the same entries. *)
Theorem dequeue_frame `{HeapQ} (self : PriorityQueueScheduler)
  (agent_filter : option string) :
  let queue := contents (sched_heap self) in
  let after :=
    contents (sched_heap (snd (dequeue_entry self agent_filter))) in
  (fst (dequeue_entry self agent_filter) = None -> after ≡ₚ queue)
  /\ (forall x, fst (dequeue_entry self agent_filter) = Some x ->
      List.filter (fun t => negb (selects agent_filter t)) after
      ≡ₚ List.filter (fun t => negb (selects agent_filter t)) queue
      /\ (length (List.filter
                    (fun t => selects agent_filter t && ScoredTask_eqb t x)
                    queue) = 1%nat ->
          x :: after ≡ₚ queue))
  /\ (forall x, agent_filter = None \/ agent_filter = Some ""%string ->
      fst (dequeue_entry self agent_filter) = Some x ->
      x :: after ≡ₚ queue)
  /\ (forall a x, agent_filter = Some a -> a <> ""%string ->
      fst (dequeue_entry self agent_filter) = Some x ->
      after
      ≡ₚ List.filter
           (fun t => negb (agent_matches a t && ScoredTask_eqb t x)) queue).
Proof.
  intros queue after.
  assert (Hfalsy : agent_filter = None \/ agent_filter = Some ""%string ->
            (fst (dequeue_entry self agent_filter) = None -> after ≡ₚ queue)
            /\ (forall x, fst (dequeue_entry self agent_filter) = Some x ->
                x :: after ≡ₚ queue)).
  { intros Hf. subst after queue.
    pose proof (dequeue_entry_unfiltered self agent_filter Hf) as Hd.
    destruct (heappop (sched_heap self)) as [[y h'] |] eqn:Hp; rewrite Hd;
      cbn [fst snd].
    - split; [discriminate |]. intros x Hx. injection Hx as <-.
      unfold _update_dequeue_stats. cbn [sched_heap].
      eapply heappop_contents. exact Hp.
    - split; [reflexivity | discriminate]. }
  assert (Hnamed : forall a, agent_filter = Some a -> a <> ""%string ->
            (fst (dequeue_entry self agent_filter) = None -> after ≡ₚ queue)
            /\ (forall x, fst (dequeue_entry self agent_filter) = Some x ->
                x ∈ queue /\ agent_matches a x = true
                /\ after
                   ≡ₚ List.filter
                        (fun t => negb (agent_matches a t
                                        && ScoredTask_eqb t x)) queue
                /\ List.filter (fun t => negb (agent_matches a t)) after
                   ≡ₚ List.filter (fun t => negb (agent_matches a t)) queue)).
  { intros a -> Ha. subst after queue.
    destruct (dequeue_entry_filtered self a Ha)
      as (M & R & self' & Hd & HP & HM & HR & _ & Hleft).
    rewrite Hd. cbn [fst snd].
    assert (HRkeep : forall x,
              List.filter (fun t => negb (agent_matches a t
                                          && ScoredTask_eqb t x)) R = R).
    { intros x. apply List_filter_all.
      eapply Forall_impl; [exact HR |]. intros t Ht. simpl in Ht.
      rewrite Ht. reflexivity. }
    destruct M as [| x M']; cbn [head].
    - split; [| discriminate]. intros _.
      rewrite Hleft, app_nil_r. exact HP.
    - split; [discriminate |]. intros y Hy. injection Hy as <-.
      inversion HM as [| ? ? Hx HM']; subst.
      rewrite filter_false_List in Hleft.
      assert (HMeq :
        List.filter (fun t => negb (agent_matches a t && ScoredTask_eqb t x))
          (x :: M')
        = List.filter (fun t => negb (ScoredTask_eqb t x)) (x :: M')).
      { apply List_filter_ext_Forall.
        eapply Forall_impl; [exact HM |]. intros t Ht. simpl in Ht.
        rewrite Ht. reflexivity. }
      assert (Hafter :
        contents (sched_heap self')
        ≡ₚ List.filter
             (fun t => negb (agent_matches a t && ScoredTask_eqb t x))
             (contents (sched_heap self))).
      { rewrite Hleft. rewrite <- HP.
        rewrite List.filter_app, HMeq, HRkeep.
        apply Permutation_app_comm. }
      split; [rewrite <- HP; left |]. split; [exact Hx |].
      split; [exact Hafter |].
      rewrite Hafter. rewrite <- HP.
      rewrite !List.filter_app.
      rewrite (List_filter_none (fun t => negb (agent_matches a t))
                 (List.filter _ (x :: M'))).
      + rewrite (List_filter_none (fun t => negb (agent_matches a t))
                   (x :: M')).
        * rewrite HRkeep. reflexivity.
        * eapply Forall_impl; [exact HM |]. intros t Ht. simpl in Ht.
          rewrite Ht. reflexivity.
      + apply Forall_forall. intros t Ht.
        apply List_filter_elem_of in Ht. destruct Ht as [Ht _].
        rewrite Forall_forall in HM. rewrite (HM t Ht). reflexivity. }
  assert (Hcases : (agent_filter = None \/ agent_filter = Some ""%string)
                   \/ exists a, agent_filter = Some a /\ a <> ""%string).
  { destruct agent_filter as [[| c a] |]; [tauto | right | tauto].
    eexists. split; [reflexivity | discriminate]. }
  split; [| split; [| split]].
  - destruct Hcases as [Hf | (a & Hfa & Ha)].
    + apply (Hfalsy Hf).
    + apply (Hnamed a Hfa Ha).
  - intros x Hx. destruct Hcases as [Hf | (a & Hfa & Ha)].
    + assert (Hsel : forall t, selects agent_filter t = true)
        by (intros t; destruct Hf as [-> | ->]; reflexivity).
      split.
      * rewrite !(List_filter_none (fun t => negb (selects agent_filter t)));
          [reflexivity | |];
          apply Forall_forall; intros t _; rewrite Hsel; reflexivity.
      * intros _. apply (Hfalsy Hf). exact Hx.
    + destruct (Hnamed a Hfa Ha) as [_ Hsome].
      destruct (Hsome x Hx) as (Hin & Hm & Hafter & Hframe).
      subst agent_filter.
      assert (Hext : forall (g : bool -> bool) l,
                List.filter (fun t => g (selects (Some a) t)) l
                = List.filter (fun t => g (agent_matches a t)) l).
      { intros g l. apply List_filter_ext_Forall, Forall_forall.
        intros t _. rewrite selects_named by exact Ha. reflexivity. }
      split.
      * rewrite !(Hext negb). exact Hframe.
      * intros Hone.
        rewrite Hafter.
        symmetry.
        apply (List_filter_single
                 (fun t => agent_matches a t && ScoredTask_eqb t x)).
        -- exact Hin.
        -- rewrite Hm, ScoredTask_eqb_refl. reflexivity.
        -- rewrite <- Hone. f_equal.
           apply List_filter_ext_Forall, Forall_forall.
           intros t _. rewrite selects_named by exact Ha. reflexivity.
  - intros x Hf Hx. apply (Hfalsy Hf). exact Hx.
  - intros a x Hfa Ha Hx. apply (Hnamed a Hfa Ha). exact Hx.
Qed.

Lemma min_by_score_least (l : list ScoredTask) :
  forall m : ScoredTask,
    min_by_score m l ∈ m :: l
    /\ forall y, y ∈ m :: l -> score_of (min_by_score m l) <= score_of y.
Proof.
  induction l as [| t l IH]; intros m; simpl.
  - split; [left |]. intros y Hy. apply elem_of_cons in Hy.
    destruct Hy as [-> | Hy]; [apply Qle_refl | inversion Hy].
  - destruct (Qlt_bool (score_of t) (score_of m)) eqn:E.
    + apply Qlt_bool_iff in E. destruct (IH t) as [Hin Hle].
      split; [right; exact Hin |].
      intros y Hy. apply elem_of_cons in Hy. destruct Hy as [-> | Hy].
      * apply Qle_trans with (score_of t); [apply Hle; left | lra].
      * apply Hle. exact Hy.
    + apply Qlt_bool_false_iff in E. destruct (IH m) as [Hin Hle].
      split.
      * apply elem_of_cons in Hin. destruct Hin as [-> | Hin];
          [left | right; right; exact Hin].
      * intros y Hy. apply elem_of_cons in Hy. destruct Hy as [-> | Hy].
        -- apply Hle. left.
        -- apply elem_of_cons in Hy. destruct Hy as [-> | Hy].
           ++ apply Qle_trans with (score_of m); [apply Hle; left | exact E].
           ++ apply Hle. right. exact Hy.
Qed.

Lemma peek_named `{HeapQ} (self : PriorityQueueScheduler) (a : string) :
  a <> ""%string ->
  peek self (Some a)
  = match List.filter (agent_matches a) (contents (sched_heap self)) with
    | m :: matching_tasks => Some (task_meta (min_by_score m matching_tasks))
    | [] => None
    end.
Proof.
  intros Ha. unfold peek.
  destruct (contents (sched_heap self)) as [| e l]; [reflexivity |].
  destruct a; [congruence | reflexivity].
Qed.

(** X4: [peek] with an agent filter answers the task of an entry of that
    agent whose score is least among the agent's entries, and answers
    empty exactly when the agent has no entry.  It names the task that
    [dequeue] with the same filter would hand out whenever the agent's
    entries of equal score carry the same task. *)
Theorem peek_spec `{HeapQ} (self : PriorityQueueScheduler) (a : string) :
  a <> ""%string ->
  let queue := contents (sched_heap self) in
  (peek self (Some a) = None
   <-> forall y, y ∈ queue -> agent_matches a y = false)
  /\ (forall tm, peek self (Some a) = Some tm ->
      exists x, x ∈ queue /\ task_meta x = tm
                /\ agent_matches a x = true
                /\ forall y, y ∈ queue -> agent_matches a y = true ->
                     score_of x <= score_of y)
  /\ ((forall y z, y ∈ queue -> z ∈ queue ->
       agent_matches a y = true -> agent_matches a z = true ->
       score_of y == score_of z -> task_meta y = task_meta z) ->
      peek self (Some a) = fst (dequeue self (Some a))).
Proof.
  intros Ha queue.
  assert (Hsome : forall tm, peek self (Some a) = Some tm ->
            exists x, x ∈ queue /\ task_meta x = tm
                      /\ agent_matches a x = true
                      /\ forall y, y ∈ queue -> agent_matches a y = true ->
                           score_of x <= score_of y).
  { intros tm Hp. rewrite peek_named in Hp by exact Ha. fold queue in Hp.
    destruct (List.filter (agent_matches a) queue) as [| m ms] eqn:E;
      [discriminate |].
    injection Hp as <-.
    destruct (min_by_score_least ms m) as [Hin Hle].
    rewrite <- E in Hin. apply List_filter_elem_of in Hin.
    exists (min_by_score m ms). split; [tauto |]. split; [reflexivity |].
    split; [tauto |]. intros y Hy Hm. apply Hle. rewrite <- E.
    apply List_filter_elem_of. split; assumption. }
  assert (Hnone : peek self (Some a) = None
                  <-> forall y, y ∈ queue -> agent_matches a y = false).
  { rewrite peek_named by exact Ha. fold queue. split.
    - intros Hp y Hy.
      destruct (List.filter (agent_matches a) queue) as [| m ms] eqn:E;
        [| discriminate].
      destruct (agent_matches a y) eqn:Hm; [| reflexivity].
      assert (Hin : y ∈ List.filter (agent_matches a) queue)
        by (apply List_filter_elem_of; split; assumption).
      rewrite E in Hin. inversion Hin.
    - intros Hall. rewrite List_filter_none; [reflexivity |].
      apply Forall_forall. exact Hall. }
  split; [exact Hnone |]. split; [exact Hsome |].
  intros Hdistinct.
  pose proof (dequeue_entry_spec self (Some a)) as Hspec.
  cbv zeta in Hspec. fold queue in Hspec.
  unfold dequeue.
  destruct (dequeue_entry self (Some a)) as [[x |] self']; cbn [fst option_map].
  - destruct Hspec as (Hin & Hsel & Hleast & _).
    rewrite selects_named in Hsel by exact Ha.
    destruct (peek self (Some a)) as [tm |] eqn:Hp.
    + destruct (Hsome tm eq_refl) as (p & Hpin & <- & Hpm & Hple).
      f_equal. apply Hdistinct; try assumption.
      apply Qle_antisym.
      * apply Hple; assumption.
      * apply key_le_score. apply Hleast; [exact Hpin |].
        rewrite selects_named by exact Ha. exact Hpm.
    + destruct Hnone as [Hn _]. rewrite (Hn eq_refl x Hin) in Hsel.
      discriminate.
  - destruct Hspec as [Hno _]. apply Hnone.
    intros y Hy. rewrite <- (selects_named a y Ha). apply Hno. exact Hy.
Qed.

(** ** Listing the queue *)

Lemma insert_by_score_perm (t : ScoredTask) (l : list ScoredTask) :
  insert_by_score t l ≡ₚ t :: l.
Proof.
  induction l as [| u l IH]; simpl; [reflexivity |].
  destruct (Qle_bool (score_of t) (score_of u)); [reflexivity |].
  rewrite IH. apply Permutation_swap.
Qed.

Lemma insert_by_score_sorted (t : ScoredTask) (l : list ScoredTask) :
  StronglySorted score_le l -> StronglySorted score_le (insert_by_score t l).
Proof.
  induction 1 as [| u l Hs IH Hall]; simpl.
  - constructor; constructor.
  - destruct (Qle_bool (score_of t) (score_of u)) eqn:E.
    + apply Qle_bool_iff in E.
      constructor; [constructor; assumption |].
      constructor; [exact E |].
      eapply Forall_impl; [exact Hall |]. intros y Hy.
      unfold score_le in *. lra.
    + constructor; [exact IH |].
      rewrite insert_by_score_perm. constructor; [| exact Hall].
      unfold score_le.
      destruct (Qlt_le_dec (score_of u) (score_of t)) as [Hlt | Hle];
        [lra |].
      apply Qle_bool_iff in Hle. congruence.
Qed.

Lemma sorted_by_score_spec (l : list ScoredTask) :
  sorted_by_score l ≡ₚ l /\ StronglySorted score_le (sorted_by_score l).
Proof.
  induction l as [| t l [Hp Hs]]; simpl.
  - split; [reflexivity | constructor].
  - split.
    + rewrite insert_by_score_perm, Hp. reflexivity.
    + apply insert_by_score_sorted. exact Hs.
Qed.

(** X5: [list_tasks(limit)] lists the first [limit] entries of the queue
    taken in ascending score order; a negative [limit] leaves out that
    many entries from the end of the order; and the listing is never
    longer than the limit or the queue. *)
Theorem list_tasks_spec `{HeapQ} (self : PriorityQueueScheduler)
  (limit : Z) :
  let queue := contents (sched_heap self) in
  exists ordered,
    ordered ≡ₚ queue
    /\ StronglySorted score_le ordered
    /\ ((0 <= limit)%Z ->
        list_tasks self limit
        = map task_row (take (Z.to_nat limit) ordered)
        /\ length (list_tasks self limit)
           = Nat.min (Z.to_nat limit) (length queue))
    /\ ((limit < 0)%Z ->
        list_tasks self limit
        = map task_row
            (take (length queue - Z.to_nat (- limit)) ordered)).
Proof.
  intros queue.
  destruct (sorted_by_score_spec queue) as [Hp Hs].
  exists (sorted_by_score queue).
  split; [exact Hp |]. split; [exact Hs |].
  unfold list_tasks, slice_to. fold queue. split.
  - intros Hpos. apply Z.ltb_ge in Hpos. rewrite Hpos.
    split; [reflexivity |].
    rewrite length_map, length_take, (Permutation_length Hp). reflexivity.
  - intros Hneg. pose proof Hneg as Hneg'.
    apply Z.ltb_lt in Hneg'. rewrite Hneg'.
    rewrite (Permutation_length Hp). f_equal. f_equal. lia.
Qed.

(** X6: [enqueue] always answers true and adds exactly one entry, whose
    task metadata is the one given: the size of the queue grows by one,
    and the size counted for an agent grows by one when the task is of
    that agent and stays the same otherwise. *)
Theorem enqueue_adds_one `{HeapQ} (self : PriorityQueueScheduler)
  (tm : TaskMeta) (t_score t_enqueue : Q) :
  let after := snd (enqueue self tm t_score t_enqueue) in
  fst (enqueue self tm t_score t_enqueue) = true
  /\ contents (sched_heap after)
     ≡ₚ mkScoredTask (score self tm t_score) t_enqueue tm
        :: contents (sched_heap self)
  /\ get_queue_size after None = S (get_queue_size self None)
  /\ (forall a, a <> ""%string ->
      get_queue_size after (Some a)
      = (get_queue_size self (Some a)
         + (if decide (tm_agent tm = Some a) then 1 else 0))%nat)
  /\ Scheduler.tasks_enqueued (Scheduler.stats after)
     = S (Scheduler.tasks_enqueued (Scheduler.stats self)).
Proof.
  intros after.
  assert (Hc : contents (sched_heap after)
               ≡ₚ mkScoredTask (score self tm t_score) t_enqueue tm
                  :: contents (sched_heap self)).
  { subst after. unfold enqueue. cbn [snd sched_heap].
    apply heappush_contents. }
  split; [reflexivity |]. split; [exact Hc |].
  split; [| split; [| reflexivity]].
  - unfold get_queue_size. rewrite (Permutation_length Hc). reflexivity.
  - intros a Ha. unfold get_queue_size.
    destruct a as [| c a]; [congruence |].
    rewrite Hc. simpl List.filter. unfold agent_matches at 1.
    cbn [task_meta].
    destruct (tm_agent tm) as [b |].
    + destruct (String.eqb b (String c a)) eqn:E.
      * apply String.eqb_eq in E. subst b.
        rewrite decide_True by reflexivity. simpl. lia.
      * apply String.eqb_neq in E.
        rewrite decide_False by congruence. lia.
    + rewrite decide_False by discriminate. lia.
Qed.

(** ** The delay queue (state.py) *)

Lemma zset_le_true (e f : string * Q) : zset_le e f = true -> snd e <= snd f.
Proof.
  unfold zset_le. rewrite orb_true_iff, andb_true_iff.
  rewrite Qlt_bool_iff, Qeq_bool_iff. intros [Hlt | [Heq _]]; lra.
Qed.

Lemma zset_le_false (e f : string * Q) : zset_le e f = false -> snd f <= snd e.
Proof.
  unfold zset_le. rewrite orb_false_iff. intros [Hlt _].
  apply Qlt_bool_false_iff in Hlt. exact Hlt.
Qed.

Lemma zset_insert_perm (e : string * Q) (l : list (string * Q)) :
  zset_insert e l ≡ₚ e :: l.
Proof.
  induction l as [| f l IH]; simpl; [reflexivity |].
  destruct (zset_le e f); [reflexivity |].
  rewrite IH. apply Permutation_swap.
Qed.

Lemma zset_insert_sorted (e : string * Q) (l : list (string * Q)) :
  StronglySorted by_score l -> StronglySorted by_score (zset_insert e l).
Proof.
  induction 1 as [| f l Hs IH Hall]; simpl.
  - constructor; constructor.
  - destruct (zset_le e f) eqn:E.
    + apply zset_le_true in E.
      constructor; [constructor; assumption |].
      constructor; [exact E |].
      eapply Forall_impl; [exact Hall |]. intros y Hy.
      unfold by_score in *. lra.
    + apply zset_le_false in E.
      constructor; [exact IH |].
      rewrite zset_insert_perm. constructor; [exact E | exact Hall].
Qed.

Lemma zset_entries_perm (z : gmap string Q) :
  zset_entries z ≡ₚ map_to_list z.
Proof.
  unfold zset_entries.
  induction (map_to_list z) as [| e l IH]; simpl; [reflexivity |].
  rewrite zset_insert_perm, IH. reflexivity.
Qed.

Lemma zset_entries_sorted (z : gmap string Q) :
  StronglySorted by_score (zset_entries z).
Proof.
  unfold zset_entries.
  induction (map_to_list z) as [| e l IH]; simpl; [constructor |].
  apply zset_insert_sorted. exact IH.
Qed.

Lemma zset_entries_lookup (z : gmap string Q) (k : string) (v : Q) :
  (k, v) ∈ zset_entries z <-> z !! k = Some v.
Proof. rewrite zset_entries_perm. apply elem_of_map_to_list. Qed.

Lemma zset_entries_length (z : gmap string Q) :
  length (zset_entries z) = size z.
Proof.
  rewrite (Permutation_length (zset_entries_perm z)).
  apply length_map_to_list.
Qed.

Lemma map_as_fmap {A B} (f : A -> B) (l : list A) : map f l = f <$> l.
Proof. induction l as [| x l IH]; [reflexivity |]. simpl. rewrite IH. reflexivity. Qed.

Lemma zset_entries_keys_NoDup (z : gmap string Q) :
  NoDup (map fst (zset_entries z)).
Proof.
  rewrite map_as_fmap, zset_entries_perm. apply NoDup_fst_map_to_list.
Qed.

Lemma in_score_range_iff (lo hi : Q) (e : string * Q) :
  in_score_range lo hi e = true <-> lo <= snd e /\ snd e <= hi.
Proof.
  unfold in_score_range. rewrite andb_true_iff, !Qle_bool_iff. reflexivity.
Qed.

Lemma filter_keys_NoDup {A B} (f : A * B -> bool) (l : list (A * B)) :
  NoDup (map fst l) -> NoDup (map fst (List.filter f l)).
Proof.
  induction l as [| e l IH]; simpl; [intros _; constructor |].
  intros Hnd. apply NoDup_cons in Hnd. destruct Hnd as [Hnotin Hnd].
  destruct (f e); [| apply IH; exact Hnd].
  simpl. apply NoDup_cons. split; [| apply IH; exact Hnd].
  intros Hin. apply Hnotin.
  rewrite map_as_fmap in *. apply list_elem_of_fmap in Hin.
  destruct Hin as (e' & -> & Hin'). apply List_filter_elem_of in Hin'.
  apply list_elem_of_fmap. exists e'. tauto.
Qed.

Lemma filter_sorted {A} (R : A -> A -> Prop) (f : A -> bool) (l : list A) :
  StronglySorted R l -> StronglySorted R (List.filter f l).
Proof.
  induction 1 as [| x l Hs IH Hall]; simpl; [constructor |].
  destruct (f x); [| exact IH].
  constructor; [exact IH |].
  apply Forall_forall. intros y Hy. apply List_filter_elem_of in Hy.
  rewrite Forall_forall in Hall. apply Hall. tauto.
Qed.

Lemma zrangebyscore_elem (z : gmap string Q) (lo hi : Q) (id : string) :
  id ∈ zrangebyscore z lo hi
  <-> exists ts, z !! id = Some ts /\ lo <= ts /\ ts <= hi.
Proof.
  unfold zrangebyscore. rewrite map_as_fmap, list_elem_of_fmap. split.
  - intros ([k v] & -> & Hin). apply List_filter_elem_of in Hin.
    destruct Hin as [Hin Hr]. apply zset_entries_lookup in Hin.
    apply in_score_range_iff in Hr. exists v. simpl in *. tauto.
  - intros (ts & Hz & Hr). exists (id, ts). split; [reflexivity |].
    apply List_filter_elem_of. split.
    + apply zset_entries_lookup. exact Hz.
    + apply in_score_range_iff. exact Hr.
Qed.

Lemma zremrangebyscore_lookup (z : gmap string Q) (lo hi : Q) (id : string) :
  zremrangebyscore z lo hi !! id
  = match z !! id with
    | Some ts => if in_score_range lo hi (id, ts) then None else Some ts
    | None => None
    end.
Proof.
  unfold zremrangebyscore.
  destruct (z !! id) as [ts |] eqn:Hz.
  - destruct (in_score_range lo hi (id, ts)) eqn:E.
    + apply map_lookup_filter_None_2. right. intros x Hx.
      rewrite Hz in Hx. injection Hx as <-. rewrite E. discriminate.
    + apply map_lookup_filter_Some_2; [exact Hz | exact E].
  - apply map_lookup_filter_None_2. left. exact Hz.
Qed.

Lemma fetch_due_retries_ids (s : RedisStore) (db : RedisDb) (now : Q) :
  r s = Some db ->
  fst (fetch_due_retries s now) = zrangebyscore (retry_q db) 0 now.
Proof.
  intros Hdb. unfold fetch_due_retries. rewrite Hdb.
  destruct (zrangebyscore (retry_q db) 0 now); reflexivity.
Qed.

Lemma fetch_due_retries_store (s : RedisStore) (db : RedisDb) (now : Q) :
  r s = Some db ->
  exists db',
    r (snd (fetch_due_retries s now)) = Some db' /\ ert db' = ert db
    /\ forall id,
         retry_q db' !! id
         = match retry_q db !! id with
           | Some ts =>
               if Qle_bool 0 ts && Qle_bool ts now then None else Some ts
           | None => None
           end.
Proof.
  intros Hdb. unfold fetch_due_retries. rewrite Hdb.
  destruct (zrangebyscore (retry_q db) 0 now) as [| i l] eqn:E.
  - exists db. cbn [snd]. split; [exact Hdb |]. split; [reflexivity |].
    intros id. destruct (retry_q db !! id) as [ts |] eqn:Hz;
      [| reflexivity].
    destruct (Qle_bool 0 ts && Qle_bool ts now) eqn:Hr; [| reflexivity].
    assert (Hin : id ∈ zrangebyscore (retry_q db) 0 now).
    { apply zrangebyscore_elem. exists ts. split; [exact Hz |].
      apply (in_score_range_iff 0 now (id, ts)). exact Hr. }
    rewrite E in Hin. inversion Hin.
  - eexists. cbn [snd r]. split; [reflexivity |].
    split; [reflexivity |].
    intros id. cbn [retry_q]. apply zremrangebyscore_lookup.
Qed.

(** X7: [fetch_due_retries(now)] answers exactly the task ids whose due
    time lies in [[0, now]], each once and in nondecreasing order of due
    time, and takes exactly those entries out of the delay queue; the
    estimates are untouched.  An entry with a negative due time is never
    fetched. *)
Theorem fetch_due_retries_spec (s : RedisStore) (db : RedisDb) (now : Q) :
  r s = Some db ->
  let ids := fst (fetch_due_retries s now) in
  let s' := snd (fetch_due_retries s now) in
  (forall id, id ∈ ids
              <-> exists ts, retry_q db !! id = Some ts
                             /\ 0 <= ts /\ ts <= now)
  /\ NoDup ids
  /\ StronglySorted
       (fun a b => forall ta tb, retry_q db !! a = Some ta ->
                                 retry_q db !! b = Some tb -> ta <= tb)
       ids
  /\ exists db',
       r s' = Some db' /\ ert db' = ert db
       /\ forall id,
            retry_q db' !! id
            = match retry_q db !! id with
              | Some ts =>
                  if Qle_bool 0 ts && Qle_bool ts now then None else Some ts
              | None => None
              end.
Proof.
  intros Hdb ids s'.
  assert (Hids : ids = zrangebyscore (retry_q db) 0 now).
  { subst ids. apply fetch_due_retries_ids. exact Hdb. }
  split; [| split; [| split]].
  - intros id. rewrite Hids. apply zrangebyscore_elem.
  - rewrite Hids. unfold zrangebyscore.
    apply filter_keys_NoDup, zset_entries_keys_NoDup.
  - rewrite Hids. unfold zrangebyscore.
    pose proof (filter_sorted by_score (in_score_range 0 now) _
                  (zset_entries_sorted (retry_q db))) as Hs.
    assert (Hall : Forall (fun e => retry_q db !! fst e = Some (snd e))
                     (List.filter (in_score_range 0 now)
                        (zset_entries (retry_q db)))).
    { apply Forall_forall. intros [k v] Hin.
      apply List_filter_elem_of in Hin. destruct Hin as [Hin _].
      apply zset_entries_lookup in Hin. exact Hin. }
    induction Hs as [| e l Hs IH Hle]; simpl; [constructor |].
    inversion Hall as [| ? ? He Hall']; subst.
    constructor; [apply IH; exact Hall' |].
    rewrite map_as_fmap. apply Forall_fmap, Forall_forall.
    intros f Hf ta tb Ha Hb. simpl in Ha, Hb.
    rewrite Forall_forall in Hle, Hall'.
    specialize (Hle f Hf). specialize (Hall' f Hf). unfold by_score in Hle.
    rewrite He in Ha. rewrite Hall' in Hb.
    injection Ha as <-. injection Hb as <-. exact Hle.
  - subst s'. apply fetch_due_retries_store. exact Hdb.
Qed.

(** ** Retries beyond [schedule] (retry_tracker.py) *)

Lemma cancel_retry_connected (self : RetryTracker) (db : RedisDb)
  (task_id : string) :
  r (redis self) = Some db ->
  fst (cancel_retry self task_id) = bool_decide (is_Some (retry_q db !! task_id))
  /\ delay_queue (snd (cancel_retry self task_id))
     = delete task_id (retry_q db)
  /\ r (redis (snd (cancel_retry self task_id)))
     = Some (mkRedisDb (delete task_id (retry_q db)) (ert db)).
Proof.
  intros Hdb. unfold cancel_retry, remove_retry, delay_queue. rewrite Hdb.
  destruct (retry_q db !! task_id) as [ts |] eqn:Hq; cbn [fst snd redis r].
  - split; [reflexivity |]. split; reflexivity.
  - rewrite Hdb. rewrite delete_id by exact Hq.
    split; [reflexivity |]. split; [reflexivity |].
    destruct db. reflexivity.
Qed.

(** X8: a retry that has just been scheduled can be cancelled:
    [cancel_retry] answers true and the task has no entry left; if the
    task had none before, the store is back to what it was.  The retry
    count that [schedule] wrote on the task metadata is not given back,
    and a second [cancel_retry] answers false. *)
Theorem schedule_then_cancel (self : RetryTracker) (tm : TaskMeta)
  (error_context : option string) (now : Q) (db : RedisDb) :
  r (redis self) = Some db ->
  (get (tm_retries tm) 0 < max_retries self)%nat ->
  let task_id := get (tm_task_id tm) "unknown"%string in
  let scheduled := schedule self tm error_context now in
  let cancelled := cancel_retry (snd (fst scheduled)) task_id in
  fst cancelled = true
  /\ delay_queue (snd cancelled) !! task_id = None
  /\ (forall other, other <> task_id ->
      delay_queue (snd cancelled) !! other = retry_q db !! other)
  /\ (retry_q db !! task_id = None -> redis (snd cancelled) = redis self)
  /\ tm_retries (snd scheduled) = Some (get (tm_retries tm) 0 + 1)%nat
  /\ fst (cancel_retry (snd cancelled) task_id) = false.
Proof.
  intros Hdb Hlt task_id scheduled cancelled.
  destruct (schedule_retry self tm error_context now db Hlt Hdb)
    as (self1 & tm1 & Hs & Hret & _ & _ & Hq & _).
  fold task_id in Hq.
  assert (Hsched : scheduled = (true, self1, tm1)) by exact Hs.
  subst cancelled. rewrite Hsched. cbn [fst snd].
  destruct (cancel_retry_connected self1 _ task_id Hq) as (Hok & Hdq & Hr).
  cbn [retry_q ert] in Hok, Hdq, Hr.
  rewrite delete_insert_eq in Hdq, Hr.
  split; [| split; [| split; [| split; [| split]]]].
  - rewrite Hok, lookup_insert_eq. reflexivity.
  - rewrite Hdq. apply lookup_delete_eq.
  - intros other Hne. rewrite Hdq. apply lookup_delete_ne. congruence.
  - intros Hnone. rewrite delete_id in Hr by exact Hnone.
    unfold cancel_retry, remove_retry in *. rewrite Hq in *.
    cbn [retry_q] in *. rewrite lookup_insert_eq in *. cbn [snd redis] in *.
    rewrite delete_insert_eq, delete_id by exact Hnone.
    assert (Hns : namespace (redis self1) = namespace (redis self)).
    { unfold scheduled, schedule in Hsched.
      apply Nat.leb_gt in Hlt. rewrite Hlt in Hsched.
      unfold zadd_retry in Hsched. rewrite Hdb in Hsched.
      injection Hsched as <- _. reflexivity. }
    rewrite Hns. destruct (redis self) as [rr ns]. cbn in *.
    rewrite Hdb. destruct db. reflexivity.
  - exact Hret.
  - destruct (cancel_retry_connected _ _ task_id Hr) as (Hok2 & _).
    rewrite Hok2. cbn [retry_q]. rewrite lookup_delete_eq. reflexivity.
Qed.

Lemma reenqueue_due_nothing `{HeapQ} (self : RetryTracker)
  (ids : list string) :
  forall (sched : PriorityQueueScheduler) (executed : nat) (now : Q),
    RetryExt.reenqueue_due self ids sched executed now = (sched, executed).
Proof.
  induction ids as [| id ids IH]; intros sched executed now;
    [reflexivity |].
  simpl. apply IH.
Qed.

(** X9: a tick of the retry poller takes the due entries out of the
    delay queue and puts nothing into the scheduler: the metadata of a
    due task is looked up with [_fetch_task_metadata], which finds none,
    so the scheduler is returned as it was and [retries_executed] does
    not move. *)
Theorem process_due_retries_drops `{HeapQ} (self : RetryTracker)
  (sched : PriorityQueueScheduler) (now : Q) :
  let after := RetryExt._process_due_retries self sched now in
  snd after = sched
  /\ redis (fst after) = snd (fetch_due_retries (redis self) now)
  /\ retries_executed (Retry.stats (fst after))
     = retries_executed (Retry.stats self)
  /\ retries_scheduled (Retry.stats (fst after))
     = retries_scheduled (Retry.stats self)
  /\ forall db id ts,
       r (redis self) = Some db ->
       retry_q db !! id = Some ts -> 0 <= ts -> ts <= now ->
       delay_queue (fst after) !! id = None.
Proof.
  intros after.
  assert (Hshape :
    snd after = sched
    /\ redis (fst after) = snd (fetch_due_retries (redis self) now)
    /\ retries_executed (Retry.stats (fst after))
       = retries_executed (Retry.stats self)
    /\ retries_scheduled (Retry.stats (fst after))
       = retries_scheduled (Retry.stats self)).
  { subst after. unfold RetryExt._process_due_retries.
    destruct (fetch_due_retries (redis self) now) as [ids store].
    destruct ids as [| id ids]; cbn [fst snd].
    - repeat split; reflexivity.
    - rewrite reenqueue_due_nothing. cbn [fst snd].
      repeat split; reflexivity. }
  destruct Hshape as (Hs & Hr & He & Hc).
  split; [exact Hs |]. split; [exact Hr |]. split; [exact He |].
  split; [exact Hc |].
  intros db id ts Hdb Hq H0 Hnow.
  destruct (fetch_due_retries_store (redis self) db now Hdb)
    as (db' & Hdb' & _ & Hlook).
  unfold delay_queue. rewrite Hr, Hdb', Hlook, Hq.
  assert (Hdue : Qle_bool 0 ts && Qle_bool ts now = true).
  { apply andb_true_iff. rewrite !Qle_bool_iff. split; assumption. }
  rewrite Hdue. reflexivity.
Qed.

(** X10: [get_retry_info] knows a task exactly when the delay queue has
    an entry for it.  The time remaining is never negative, the entry is
    reported due exactly when its due time is not after [now], and an
    entry with a nonnegative due time is reported due exactly when
    [fetch_due_retries] at the same time would fetch it. *)
Theorem get_retry_info_spec (self : RetryTracker) (db : RedisDb)
  (task_id : string) (now : Q) :
  r (redis self) = Some db ->
  (RetryExt.get_retry_info self task_id now = None
   <-> retry_q db !! task_id = None)
  /\ forall info,
       RetryExt.get_retry_info self task_id now = Some info ->
       retry_q db !! task_id = Some (RetryExt.info_retry_timestamp info)
       /\ 0 <= RetryExt.info_time_remaining_s info
       /\ (RetryExt.info_is_due info = true
           <-> RetryExt.info_retry_timestamp info <= now)
       /\ (0 <= RetryExt.info_retry_timestamp info ->
           (RetryExt.info_is_due info = true
            <-> task_id ∈ fst (fetch_due_retries (redis self) now))).
Proof.
  intros Hdb. unfold RetryExt.get_retry_info. rewrite Hdb.
  destruct (retry_q db !! task_id) as [ts |] eqn:Hq.
  - split; [split; discriminate |].
    intros info Hinfo. injection Hinfo as <-.
    unfold RetryExt.retry_info.
    cbn [RetryExt.info_retry_timestamp RetryExt.info_time_remaining_s
         RetryExt.info_is_due].
    assert (Hdue : Qle_bool (Qmax 0 (ts - now)) 0 = true <-> ts <= now).
    { rewrite Qle_bool_iff. split.
      - intros Hle. pose proof (Q.le_max_r 0 (ts - now)). lra.
      - intros Hle. apply Q.max_lub; lra. }
    split; [reflexivity |]. split; [apply Q.le_max_l |].
    split; [exact Hdue |].
    intros Hpos. rewrite Hdue.
    rewrite (fetch_due_retries_ids (redis self) db now Hdb).
    rewrite zrangebyscore_elem. split.
    + intros Hle. exists ts. tauto.
    + intros (ts' & Hq' & _ & Hle). congruence.
  - split; [split; reflexivity |]. discriminate.
Qed.

Lemma zrange_from_start (z : gmap string Q) (limit : Z) :
  zrange z 0 (limit - 1)
  = if (limit =? 0)%Z then zset_entries z
    else if (0 <? limit)%Z then take (Z.to_nat limit) (zset_entries z)
    else take (length (zset_entries z) - Z.to_nat (- limit))
           (zset_entries z).
Proof.
  unfold zrange.
  set (entries := zset_entries z).
  set (n := Z.of_nat (length entries)).
  assert (Hn : (0 <= n)%Z) by (subst n; lia).
  change (0 <? 0)%Z with false. cbv iota.
  destruct (Z.eqb_spec limit 0) as [-> | Hne].
  - (* limit = 0: the stop index is -1, the last rank *)
    change (0 - 1 <? 0)%Z with true. cbv iota.
    destruct (Z.ltb_spec (n + (0 - 1)) 0) as [Hlt | Hge]; cbn [orb].
    + assert (Hz : length entries = 0%nat) by (subst n; lia).
      destruct entries; [reflexivity | discriminate].
    + destruct (Z.leb_spec n 0) as [Hle | Hgt].
      * assert (Hz : length entries = 0%nat) by (subst n; lia).
        destruct entries; [reflexivity | discriminate].
      * rewrite drop_0. apply take_ge. subst n. lia.
  - destruct (Z.ltb_spec 0 limit) as [Hpos | Hneg].
    + assert (Hstop : (limit - 1 <? 0)%Z = false) by (apply Z.ltb_ge; lia).
      rewrite Hstop.
      destruct (Z.ltb_spec (Z.min (limit - 1) (n - 1)) 0) as [Hlt | Hge];
        cbn [orb].
      * assert (Hz : length entries = 0%nat) by (subst n; lia).
        destruct entries; [| discriminate]. rewrite take_nil. reflexivity.
      * destruct (Z.leb_spec n 0) as [Hle | Hgt]; [lia |].
        rewrite drop_0.
        destruct (Z.le_ge_cases limit n) as [Hsmall | Hbig].
        -- f_equal. lia.
        -- rewrite !take_ge by (subst n; lia). reflexivity.
    + assert (Hstop : (limit - 1 <? 0)%Z = true) by (apply Z.ltb_lt; lia).
      rewrite Hstop.
      destruct (Z.ltb_spec (n + (limit - 1)) 0) as [Hlt | Hge]; cbn [orb].
      * assert (Hz : (length entries - Z.to_nat (- limit) = 0)%nat)
          by (subst n; lia).
        rewrite Hz. reflexivity.
      * destruct (Z.leb_spec n 0) as [Hle | Hgt]; [lia |].
        rewrite drop_0. f_equal. subst n. lia.
Qed.

(** X11: [list_pending_retries(limit)] lists the first [limit] entries
    of the delay queue in nondecreasing order of due time when [limit] is
    positive; with [limit = 0] the stop rank sent to Redis is [-1], the
    last rank, and the listing has every entry of the queue. *)
Theorem list_pending_retries_spec (self : RetryTracker) (db : RedisDb)
  (limit : Z) (now : Q) :
  r (redis self) = Some db ->
  let listing := RetryExt.list_pending_retries self limit now in
  let entries := zset_entries (retry_q db) in
  ((0 < limit)%Z ->
   listing
   = map (fun e => RetryExt.retry_info now (fst e) (snd e))
       (take (Z.to_nat limit) entries)
   /\ length listing = Nat.min (Z.to_nat limit) (size (retry_q db)))
  /\ (limit = 0%Z ->
      listing = map (fun e => RetryExt.retry_info now (fst e) (snd e)) entries
      /\ length listing = size (retry_q db))
  /\ StronglySorted
       (fun a b => RetryExt.info_retry_timestamp a
                   <= RetryExt.info_retry_timestamp b)
       listing
  /\ forall info, info ∈ listing ->
       retry_q db !! RetryExt.info_task_id info
       = Some (RetryExt.info_retry_timestamp info).
Proof.
  intros Hdb listing entries.
  assert (Hl : listing
               = map (fun e => RetryExt.retry_info now (fst e) (snd e))
                   (zrange (retry_q db) 0 (limit - 1))).
  { subst listing. unfold RetryExt.list_pending_retries. rewrite Hdb.
    reflexivity. }
  assert (Hprefix : exists k, zrange (retry_q db) 0 (limit - 1)
                              = take k entries).
  { rewrite zrange_from_start. fold entries.
    destruct (limit =? 0)%Z.
    - exists (length entries). symmetry. apply firstn_all.
    - destruct (0 <? limit)%Z; eexists; reflexivity. }
  split; [| split; [| split]].
  - intros Hpos. rewrite Hl, zrange_from_start. fold entries.
    assert (Hne : (limit =? 0)%Z = false) by (apply Z.eqb_neq; lia).
    assert (Hp : (0 <? limit)%Z = true) by (apply Z.ltb_lt; lia).
    rewrite Hne, Hp. split; [reflexivity |].
    rewrite length_map, length_take. subst entries.
    rewrite zset_entries_length. reflexivity.
  - intros ->. rewrite Hl, zrange_from_start. fold entries.
    change (0 =? 0)%Z with true. cbv iota. split; [reflexivity |].
    rewrite length_map. subst entries. apply zset_entries_length.
  - rewrite Hl. destruct Hprefix as [k ->].
    assert (Hs : StronglySorted by_score (take k entries)).
    { pose proof (zset_entries_sorted (retry_q db)) as Hsorted.
      fold entries in Hsorted. clear Hl. revert k.
      induction Hsorted as [| e l Hs IH Hall]; intros k.
      - rewrite take_nil. constructor.
      - destruct k as [| k]; [constructor |]. simpl.
        constructor; [apply IH |].
        apply Forall_forall. intros y Hy.
        rewrite Forall_forall in Hall. apply Hall.
        apply (subseteq_take k l). exact Hy. }
    clear Hl. induction Hs as [| e l Hs IH Hall]; simpl; [constructor |].
    constructor; [exact IH |].
    rewrite map_as_fmap. apply Forall_fmap.
    eapply Forall_impl; [exact Hall |]. intros y Hy. exact Hy.
  - intros info Hin. rewrite Hl in Hin. destruct Hprefix as [k Hk].
    rewrite Hk, map_as_fmap in Hin.
    apply list_elem_of_fmap in Hin. destruct Hin as ([id ts] & -> & Hin).
    cbn [RetryExt.retry_info RetryExt.info_task_id
         RetryExt.info_retry_timestamp fst snd].
    apply zset_entries_lookup. fold entries.
    apply (subseteq_take k entries). exact Hin.
Qed.

(** ** The backoff (retry_tracker.py) *)

Lemma pow2_succ (n : nat) :
  inject_Z (2 ^ Z.of_nat (S n)) == 2 * inject_Z (2 ^ Z.of_nat n).
Proof.
  rewrite Nat2Z.inj_succ, Z.pow_succ_r by lia.
  rewrite inject_Z_mult. reflexivity.
Qed.

Lemma pow2_positive (n : nat) : 0 < inject_Z (2 ^ Z.of_nat n).
Proof.
  change 0 with (inject_Z 0). rewrite <- Zlt_Qlt.
  apply Z.pow_pos_nonneg; lia.
Qed.

(** X12: the backoff delay never exceeds [backoff_max_s]; it is
    [backoff_base_s * 2^n] as long as that does not exceed the cap; and
    with a nonnegative base it does not decrease from one retry to the
    next and is never negative (for a nonnegative cap). *)
Theorem backoff_delay_shape (self : RetryTracker) (n : nat) :
  backoff_delay self n <= backoff_max_s self
  /\ (backoff_base_s self * inject_Z (2 ^ Z.of_nat n) <= backoff_max_s self ->
      backoff_delay self n
      == backoff_base_s self * inject_Z (2 ^ Z.of_nat n))
  /\ (0 <= backoff_base_s self ->
      backoff_delay self n <= backoff_delay self (S n))
  /\ (0 <= backoff_base_s self -> 0 <= backoff_max_s self ->
      0 <= backoff_delay self n).
Proof.
  unfold backoff_delay. split; [apply Q.le_min_r |].
  split; [intros Hle; apply Q.min_l; exact Hle |].
  pose proof (pow2_positive n) as Hpos.
  split.
  - intros Hbase. apply Q.min_le_compat_r.
    rewrite pow2_succ.
    assert (0 <= backoff_base_s self * inject_Z (2 ^ Z.of_nat n))
      by (apply Qmult_le_0_compat; lra).
    lra.
  - intros Hbase Hmax. apply Q.min_glb; [| exact Hmax].
    apply Qmult_le_0_compat; lra.
Qed.

(** X13: the retry budget.  With the delay queue reachable, of any
    sequence of calls of [schedule] for a task the first
    [max_retries - retries] are granted and all later ones are refused;
    the retry count ends up raised by the number of calls granted, so it
    never passes [max_retries] unless it started above. *)
Theorem retry_budget (calls : list (option string * Q)) :
  forall (self : RetryTracker) (tm : TaskMeta) (db : RedisDb),
    r (redis self) = Some db ->
    let retries := get (tm_retries tm) 0%nat in
    let granted :=
      Nat.min (length calls) (max_retries self - retries) in
    fst (fst (schedule_each self tm calls))
    = replicate granted true ++ replicate (length calls - granted) false
    /\ get (tm_retries (snd (schedule_each self tm calls))) 0%nat
       = (retries + granted)%nat
    /\ (get (tm_retries (snd (schedule_each self tm calls))) 0
        <= Nat.max (max_retries self) retries)%nat.
Proof.
  induction calls as [| [error_context now] calls IH];
    intros self tm db Hdb retries granted.
  - simpl. subst granted. simpl. repeat split; lia.
  - cbn [schedule_each].
    destruct (Nat.lt_ge_cases retries (max_retries self)) as [Hlt | Hge].
    + destruct (schedule_retry self tm error_context now db Hlt Hdb)
        as (self1 & tm1 & Hs & Hret & _ & _ & Hq & Hmax & _).
      rewrite Hs.
      specialize (IH self1 tm1 _ Hq). cbv zeta in IH.
      rewrite Hret, Hmax in IH. cbn [get] in IH. fold retries in IH.
      destruct (schedule_each self1 tm1 calls) as [[oks self2] tm2].
      cbn [fst snd] in *. destruct IH as (Hoks & Hcount & Hbound).
      assert (Hg : granted
                   = S (Nat.min (length calls)
                          (max_retries self - (retries + 1)))).
      { subst granted. cbn [length]. lia. }
      rewrite Hg, Hoks. cbn [length replicate app Nat.sub].
      split; [reflexivity |]. split; lia.
    + rewrite (schedule_abandon self tm error_context now Hge).
      match goal with
      | |- context [schedule_each ?s tm calls] =>
          specialize (IH s tm db Hdb)
      end.
      cbv zeta in IH. cbn [max_retries] in IH. fold retries in IH.
      destruct (schedule_each _ tm calls) as [[oks self2] tm2].
      cbn [fst snd] in *. destruct IH as (Hoks & Hcount & Hbound).
      assert (Hg : granted = 0%nat) by (subst granted; lia).
      assert (Hz : Nat.min (length calls) (max_retries self - retries)
                   = 0%nat) by lia.
      rewrite Hz in Hoks, Hcount. rewrite Nat.sub_0_r in Hoks.
      rewrite Hg, Hoks. cbn [length replicate app Nat.sub].
      split; [reflexivity |]. split; lia.
Qed.

(** ** The worker (worker_pool.py) *)

Import Worker.



Lemma schedule_keeps_identity (self : RetryTracker) (tm : TaskMeta)
  (error_context : option string) (now : Q) :
  let tm' := snd (schedule self tm error_context now) in
  tm_agent tm' = tm_agent tm /\ tm_task_id tm' = tm_task_id tm
  /\ tm_run_id tm' = tm_run_id tm /\ tm_action tm' = tm_action tm.
Proof.
  unfold schedule.
  destruct (max_retries self <=? _)%nat; [repeat split; reflexivity |].
  destruct (zadd_retry _ _ _) as [success store].
  destruct success; repeat split; reflexivity.
Qed.

Lemma execute_task_keeps_identity `{HeapQ} (self : WorkerPool)
  (tm : TaskMeta) (worker_id : nat) (outcome : HttpOutcome)
  (clock : Ticks) :
  let tm' := snd (_execute_task self tm worker_id outcome clock) in
  tm_agent tm' = tm_agent tm /\ tm_task_id tm' = tm_task_id tm
  /\ tm_run_id tm' = tm_run_id tm /\ tm_action tm' = tm_action tm.
Proof.
  unfold _execute_task, _is_workflow_cancelled.
  destruct (_call_agent self outcome) as [result | err].
  - repeat split; reflexivity.
  - cbv zeta.
    match goal with
    | |- context [schedule ?s ?m ?e ?n] =>
        pose proof (schedule_keeps_identity s m e n) as Hid;
        destruct (schedule s m e n) as [[okk tracker] tm3]
    end.
    cbn [snd] in *. exact Hid.
Qed.

(** X15: one turn of a worker's loop.  A worker of a named agent
    executes only a task of its own agent, and the task it executes is
    the one it took from the queue (same run, task id and action).  It
    stays idle exactly when the queue has no entry of its agent; then it
    emits nothing and the queue keeps its entries. *)
Theorem worker_loop_step_spec `{HeapQ} (self : WorkerPool)
  (worker_id : nat) (outcome : HttpOutcome) (clock : Ticks) :
  agent self <> ""%string ->
  let queue := contents (sched_heap (scheduler self)) in
  let after := fst (WorkerExt._worker_loop_step self worker_id outcome clock) in
  let executed :=
    snd (WorkerExt._worker_loop_step self worker_id outcome clock) in
  (forall tm', executed = Some tm' ->
     tm_agent tm' = Some (agent self)
     /\ exists x, x ∈ queue
                  /\ tm_task_id (task_meta x) = tm_task_id tm'
                  /\ tm_run_id (task_meta x) = tm_run_id tm'
                  /\ tm_action (task_meta x) = tm_action tm'
                  /\ forall y, y ∈ queue ->
                       agent_matches (agent self) y = true -> key_le x y)
  /\ (executed = None
      <-> forall y, y ∈ queue -> agent_matches (agent self) y = false)
  /\ (executed = None ->
      emitted after = emitted self
      /\ contents (sched_heap (scheduler after)) ≡ₚ queue
      /\ retry_tracker after = retry_tracker self)
  /\ agent after = agent self.
Proof.
  intros Ha queue after executed.
  pose proof (dequeue_entry_spec (scheduler self) (Some (agent self)))
    as Hspec.
  cbv zeta in Hspec. fold queue in Hspec.
  pose proof (dequeue_entry_none_keeps (scheduler self) (Some (agent self)))
    as Hframe.
  subst after executed. unfold WorkerExt._worker_loop_step, dequeue.
  destruct (dequeue_entry (scheduler self) (Some (agent self)))
    as [[x |] sched]; cbn [option_map fst snd] in *.
  - destruct Hspec as (Hin & Hsel & Hleast & _).
    rewrite selects_named in Hsel by exact Ha.
    match goal with
    | |- context [_execute_task ?p ?m ?w ?o ?c] =>
        pose proof (execute_task_keeps_identity p m w o c) as Hid;
        assert (Hag : agent (fst (_execute_task p m w o c)) = agent self);
        [unfold _execute_task, _is_workflow_cancelled;
         destruct (_call_agent p o); cbv zeta;
         [reflexivity | destruct (schedule _ _ _ _) as [[? ?] ?]; reflexivity]
        | destruct (_execute_task p m w o c) as [done tm1]]
    end.
    cbn [fst snd agent] in *. destruct Hid as (Hag' & Hid & Hrun & Hact).
    split; [| split; [| split]].
    + intros tm' Htm. injection Htm as <-.
      split.
      * rewrite Hag'. unfold agent_matches in Hsel.
        destruct (tm_agent (task_meta x)) as [b |]; [| discriminate].
        apply String.eqb_eq in Hsel. congruence.
      * exists x. split; [exact Hin |].
        split; [congruence |]. split; [congruence |].
        split; [congruence |].
        intros y Hy Hm. apply Hleast; [exact Hy |].
        rewrite selects_named by exact Ha. exact Hm.
    + split; [discriminate |]. intros Hnone.
      rewrite (Hnone x Hin) in Hsel. discriminate.
    + discriminate.
    + exact Hag.
  - destruct Hspec as [Hno _].
    split; [discriminate |]. split; [| split].
    + split; [| reflexivity]. intros _ y Hy.
      rewrite <- (selects_named (agent self) y Ha). apply Hno. exact Hy.
    + intros _. cbn [emitted scheduler retry_tracker].
      split; [reflexivity |]. split; [| reflexivity].
      apply Hframe. reflexivity.
    + reflexivity.
Qed.

(** ** The coordinator beyond failures and cancellation
       (workflow_manager.py) *)

Import Manager.

Lemma enqueue_task_doc `{HeapQ} (e e' : Engine) (t : TaskDoc) (now : Q) :
  fst (_enqueue_task e t now) = fst (_enqueue_task e' t now).
Proof. reflexivity. Qed.

Lemma enqueue_task_fields `{HeapQ} (e : Engine) (t : TaskDoc) (now : Q) :
  let t' := fst (_enqueue_task e t now) in
  td_status t' = TaskStatus_QUEUED /\ td_queued_at t' = Some now
  /\ td_run_id t' = td_run_id t /\ td_task_id t' = td_task_id t
  /\ td_in_degree t' = td_in_degree t
  /\ td_depends_on t' = td_depends_on t
  /\ td_definition t' = td_definition t
  /\ td_retries t' = td_retries t
  /\ td_result t' = td_result t.
Proof. repeat split; reflexivity. Qed.













Lemma update_one_no_match {A} (p : A -> bool) (f : A -> A) (l : list A) :
  find_one p l = None -> update_one p f l = l.
Proof.
  unfold find_one. induction l as [| a l IH]; cbn [List.find update_one];
    [reflexivity |].
  destruct (p a); [discriminate |]. intros Hn. rewrite IH by exact Hn.
  reflexivity.
Qed.




Lemma foldl_insert_lookup (run_id : string) (docs : list TaskDoc) :
  forall (m : gmap string TaskDoc) (k : string) (t : TaskDoc),
    foldl (fun m task_doc =>
             <[task_key run_id (td_task_id task_doc) := task_doc]> m)
      m docs !! k = Some t ->
    m !! k = Some t \/ t ∈ docs.
Proof.
  induction docs as [| a l IH]; intros m k t Hk; [left; exact Hk |].
  cbn [foldl] in Hk. apply IH in Hk. destruct Hk as [Hk | Hin].
  - destruct (decide (task_key run_id (td_task_id a) = k)) as [<- | Hne].
    + rewrite lookup_insert_eq in Hk. injection Hk as <-.
      right. apply list_elem_of_here.
    + rewrite lookup_insert_ne in Hk by exact Hne. left. exact Hk.
  - right. apply list_elem_of_further. exact Hin.
Qed.

Lemma foldl_insert_stored (run_id : string) (docs : list TaskDoc) :
  forall (m : gmap string TaskDoc) (a : TaskDoc),
    a ∈ docs ->
    exists t,
      foldl (fun m task_doc =>
               <[task_key run_id (td_task_id task_doc) := task_doc]> m)
        m docs !! task_key run_id (td_task_id a) = Some t
      /\ t ∈ docs.
Proof.
  assert (Hkept : forall (l : list TaskDoc) (m : gmap string TaskDoc) k t,
            m !! k = Some t ->
            exists t',
              foldl (fun m task_doc =>
                       <[task_key run_id (td_task_id task_doc) := task_doc]>
                         m) m l !! k = Some t'
              /\ (t' = t \/ t' ∈ l)).
  { induction l as [| b l IH]; intros m k t Hk.
    - exists t. split; [exact Hk | left; reflexivity].
    - cbn [foldl].
      destruct (decide (task_key run_id (td_task_id b) = k)) as [<- | Hne].
      + destruct (IH (<[task_key run_id (td_task_id b) := b]> m)
                    (task_key run_id (td_task_id b)) b)
          as (t' & Ht' & Hor); [apply lookup_insert_eq |].
        exists t'. split; [exact Ht' |]. right.
        destruct Hor as [-> | Hin];
          [apply list_elem_of_here | apply list_elem_of_further; exact Hin].
      + destruct (IH (<[task_key run_id (td_task_id b) := b]> m) k t)
          as (t' & Ht' & Hor);
          [rewrite lookup_insert_ne by exact Hne; exact Hk |].
        exists t'. split; [exact Ht' |].
        destruct Hor as [-> | Hin];
          [left; reflexivity | right; apply list_elem_of_further; exact Hin]. }
  induction docs as [| b l IH]; intros m a Ha; [inversion Ha |].
  cbn [foldl]. apply elem_of_cons in Ha. destruct Ha as [-> | Ha].
  - destruct (Hkept l (<[task_key run_id (td_task_id b) := b]> m)
                (task_key run_id (td_task_id b)) b)
      as (t' & Ht' & Hor); [apply lookup_insert_eq |].
    exists t'. split; [exact Ht' |].
    destruct Hor as [-> | Hin];
      [apply list_elem_of_here | apply list_elem_of_further; exact Hin].
  - destruct (IH (<[task_key run_id (td_task_id b) := b]> m) a Ha)
      as (t' & Ht' & Hin).
    exists t'. split; [exact Ht' |]. apply list_elem_of_further. exact Hin.
Qed.

Lemma create_task_documents_elem (run_id : string) (defs : list TaskDef)
  (now : Q) (t : TaskDoc) :
  t ∈ _create_task_documents run_id defs now ->
  td_run_id t = run_id /\ td_status t = TaskStatus_PENDING
  /\ exists def, def ∈ defs /\ td_task_id t = def_id def
                 /\ td_in_degree t
                    = Z.of_nat (length (def_depends_on def)).
Proof.
  unfold _create_task_documents. rewrite map_as_fmap.
  intros Ht. apply list_elem_of_fmap in Ht. destruct Ht as (def & -> & Hin).
  split; [reflexivity |]. split; [reflexivity |].
  exists def. split; [exact Hin |]. split; reflexivity.
Qed.

(** X19: a workflow kept in memory is never run.  When the coordinator
    has no database, [init_workflow] stores the run and its tasks in
    memory, all PENDING; [start_workflow] then answers true, yet the run
    is still PENDING, no task is queued and the scheduler is as it was;
    and a later [handle_task_completion] changes nothing at all. *)
Theorem in_memory_workflow_never_starts `{HeapQ} (e : Engine)
  (run_id : string) (defs : list TaskDef) (t0 t1 : Q) :
  db (manager e) = None ->
  let m1 := snd (init_workflow (manager e) run_id defs t0) in
  let e2 := snd (start_workflow (set_manager e m1) run_id t1) in
  fst (start_workflow (set_manager e m1) run_id t1) = true
  /\ Manager.scheduler e2 = Manager.scheduler e
  /\ (exists w,
        in_memory_workflows (manager e2) !! run_id = Some w
        /\ wf_status w = WorkflowStatus_PENDING
        /\ wf_started_at w = None
        /\ wf_total_tasks w = length defs)
  /\ (forall k t, in_memory_tasks (manager e2) !! k = Some t ->
        in_memory_tasks (manager e) !! k = Some t
        \/ (td_run_id t = run_id /\ td_status t = TaskStatus_PENDING))
  /\ (forall def, def ∈ defs ->
        exists t,
          in_memory_tasks (manager e2) !! task_key run_id (def_id def)
          = Some t
          /\ td_run_id t = run_id /\ td_status t = TaskStatus_PENDING)
  /\ map me_type (Manager.emitted (manager e2))
     = map me_type (Manager.emitted (manager e))
       ++ ["workflow_created"; "workflow_started"]%string
  /\ forall task_id success result now,
       handle_task_completion e2 run_id task_id success result now = e2.
Proof.
  intros Hdb m1 e2.
  assert (Hm1 : db m1 = None
                /\ in_memory_workflows m1
                   = <[run_id :=
                         mkWorkflowDoc run_id defs WorkflowStatus_PENDING
                           t0 t0 None None (length defs) 0%nat 0%nat
                           None None None]>
                       (in_memory_workflows (manager e))
                /\ in_memory_tasks m1
                   = foldl (fun m task_doc =>
                              <[task_key run_id (td_task_id task_doc) :=
                                  task_doc]> m)
                       (in_memory_tasks (manager e))
                       (_create_task_documents run_id defs t0)
                /\ Manager.emitted m1
                   = Manager.emitted (manager e)
                     ++ [mkManagerEvent "workflow_created" run_id None None
                           None None t0]).
  { subst m1. unfold init_workflow. rewrite Hdb.
    destruct (use_mongo (manager e)); cbn; rewrite ?Hdb;
      repeat split; reflexivity. }
  destruct Hm1 as (Hdb1 & Hw1 & Ht1 & He1).
  assert (He2 : e2 = set_manager (set_manager e m1)
                       (_emit_event m1
                          (mkManagerEvent "workflow_started" run_id None
                             None None None t1))).
  { subst e2. unfold start_workflow, enqueue_initial_tasks.
    change (db (manager (set_manager e m1))) with (db m1).
    rewrite Hdb1. cbn [snd].
    change (db (manager (set_manager e m1))) with (db m1).
    rewrite Hdb1. reflexivity. }
  split; [reflexivity |]. rewrite He2.
  cbn [manager set_manager _emit_event Manager.scheduler in_memory_workflows
       in_memory_tasks Manager.emitted].
  split; [reflexivity |]. split; [| split; [| split; [| split]]].
  - rewrite Hw1. eexists. split; [apply lookup_insert_eq |].
    repeat split; reflexivity.
  - intros k t Hk. rewrite Ht1 in Hk.
    apply foldl_insert_lookup in Hk. destruct Hk as [Hk | Hin].
    + left. exact Hk.
    + right. apply create_task_documents_elem in Hin.
      destruct Hin as (Hr & Hs & _). split; assumption.
  - intros def Hdef. rewrite Ht1.
    set (doc := mkTaskDoc run_id (def_id def) def TaskStatus_PENDING t0 t0
                  None None 0%nat
                  (Z.of_nat (length (def_depends_on def)))
                  (Z.of_nat (length (def_depends_on def)))
                  (def_agent def) (def_action def) (def_params def)
                  (def_depends_on def) None None false).
    assert (Hdoc : doc ∈ _create_task_documents run_id defs t0).
    { unfold _create_task_documents. rewrite map_as_fmap.
      apply list_elem_of_fmap. exists def. split; [reflexivity | exact Hdef]. }
    destruct (foldl_insert_stored run_id _ (in_memory_tasks (manager e))
                doc Hdoc) as (t & Ht & Hin).
    exists t. split; [exact Ht |].
    apply create_task_documents_elem in Hin.
    destruct Hin as (Hr & Hs & _). split; assumption.
  - rewrite He1, !map_app. rewrite <- app_assoc. reflexivity.
  - intros task_id success result now. unfold handle_task_completion.
    cbn [manager set_manager _emit_event db]. rewrite Hdb1. reflexivity.
Qed.





Lemma task_status_value_not_matched (s : string) :
  s ∈ task_status_values ->
  str_in s ["PENDING"; "QUEUED"]%string = false
  /\ String.eqb s "RUNNING" = false
  /\ str_in s ["PENDING"; "QUEUED"; "RUNNING"]%string = false.
Proof.
  unfold task_status_values. rewrite !elem_of_cons.
  intros [-> | [-> | [-> | [-> | [-> | [-> | [-> | Hs]]]]]]];
    [repeat split; reflexivity .. | inversion Hs].
Qed.

(** X22: the cancellation path does not recognise the statuses the
    coordinator writes.  [cancel_workflow] selects the tasks to cancel by
    the upper-case literals PENDING, QUEUED and RUNNING, while the
    coordinator stores the lower-case values of [TaskStatus]; so a task
    document whose status is one of those values is left exactly as it
    was, in the database as well as in memory, whatever the run. *)
Theorem cancel_skips_coordinator_statuses `{HeapQ} (e : Engine)
  (run_id reason : string) (force : bool) (cancelled_by : string) (now : Q) :
  let e' := snd (cancel_workflow e run_id reason force cancelled_by now) in
  (forall d, db (manager e) = Some d ->
     exists d',
       db (manager e') = Some d'
       /\ length (tasks d') = length (tasks d)
       /\ forall j t, tasks d !! j = Some t ->
            td_status t ∈ task_status_values -> tasks d' !! j = Some t)
  /\ (forall k t, in_memory_tasks (manager e) !! k = Some t ->
        td_status t ∈ task_status_values ->
        in_memory_tasks (manager e') !! k = Some t)
  /\ Manager.scheduler e' = Manager.scheduler e
  /\ Manager.retry_tracker e' = Manager.retry_tracker e.
Proof.
  intros e'. subst e'.
  set (P := fun e' : Engine =>
         (forall d, db (manager e) = Some d ->
            exists d',
              db (manager e') = Some d'
              /\ length (tasks d') = length (tasks d)
              /\ forall j t, tasks d !! j = Some t ->
                   td_status t ∈ task_status_values ->
                   tasks d' !! j = Some t)
         /\ (forall k t, in_memory_tasks (manager e) !! k = Some t ->
               td_status t ∈ task_status_values ->
               in_memory_tasks (manager e') !! k = Some t)
         /\ Manager.scheduler e' = Manager.scheduler e
         /\ Manager.retry_tracker e' = Manager.retry_tracker e).
  change (P (snd (cancel_workflow e run_id reason force cancelled_by now))).
  assert (Hsame : P e).
  { unfold P. split; [| repeat split; tauto].
    intros d Hd. exists d. split; [exact Hd |]. split; [reflexivity |].
    tauto. }
  assert (Hmongo : forall d runs1 fenced f g,
            db (manager e) = Some d ->
            P (mkEngine
                 (set_db (manager e)
                    (mkDb runs1
                       (update_many
                          (fun t => String.eqb (td_run_id t) run_id
                                    && String.eqb (td_status t) "RUNNING")
                          g
                          (update_many
                             (fun t => String.eqb (td_run_id t) run_id
                                       && str_in (td_status t)
                                            ["PENDING"; "QUEUED"]%string)
                             f (tasks d)))))
                 (Manager.scheduler e) (Manager.retry_tracker e) fenced)).
  { intros d runs1 fenced f g Hd. unfold P.
    cbn [manager set_db db in_memory_tasks Manager.scheduler
         Manager.retry_tracker].
    split; [| split; [| split; reflexivity]].
    - intros d0 Hd0. rewrite Hd in Hd0. injection Hd0 as <-. eexists.
      split; [reflexivity |]. cbn [tasks]. split.
      { unfold update_many. rewrite !length_map. reflexivity. }
      intros j t Hj Hs.
      destruct (task_status_value_not_matched _ Hs) as (Hpq & Hr & _).
      erewrite update_many_lookup
        by (apply update_many_lookup; exact Hj).
      rewrite Hpq, andb_false_r. rewrite Hr, andb_false_r. reflexivity.
    - intros k t Hk _. exact Hk. }
  assert (Hmem : forall (m' : gmap string WorkflowDoc),
            P (set_manager e
                 (mkManager (use_mongo (manager e)) (db (manager e)) m'
                    ((fun task =>
                        if String.eqb (td_run_id task) run_id
                           && str_in (td_status task)
                                ["PENDING"; "QUEUED"; "RUNNING"]%string
                        then cancel_task reason task else task)
                     <$> in_memory_tasks (manager e))
                    (Manager.emitted (manager e))
                    (Manager.stats (manager e))))).
  { intros m'. unfold P.
    cbn [manager set_manager db in_memory_tasks Manager.scheduler
         Manager.retry_tracker].
    split; [| split; [| split; reflexivity]].
    - intros d Hd. exists d. split; [exact Hd |].
      split; [reflexivity |]. tauto.
    - intros k t Hk Hs. rewrite lookup_fmap, Hk.
      cbn [fmap option_fmap option_map].
      destruct (task_status_value_not_matched _ Hs) as (_ & _ & Hno).
      rewrite Hno, andb_false_r. reflexivity. }
  clearbody P. unfold cancel_workflow. cbv zeta.
  destruct (use_mongo (manager e)) eqn:Hm;
    destruct (db (manager e)) as [d |] eqn:Hdb;
    try (destruct (in_memory_workflows (manager e) !! run_id);
         [cbn [snd]; apply Hmem | exact Hsame]).
  destruct (find_one (is_run run_id) (runs d)) as [w |]; [| exact Hsame].
  destruct (str_in (wf_status w) ["COMPLETED"; "FAILED"; "CANCELLED"]);
    [exact Hsame |].
  cbn [snd]. apply Hmongo. reflexivity.
Qed.




(** ** Emptying the queues (scheduler.py, retry_tracker.py) *)

(** X24: [clear] empties the scheduler's queue for good: afterwards the
    size is 0 for every filter and agrees with the statistic, every
    [dequeue] and [peek] answers nothing and [list_tasks] lists nothing,
    while the counters of enqueued and dequeued tasks, the store of the
    estimates and hence every score are as before. *)
Theorem clear_spec `{HeapQ} (self : PriorityQueueScheduler) :
  let after := clear self in
  contents (sched_heap after) = []
  /\ size_recorded after
  /\ (forall f, get_queue_size after f = 0%nat)
  /\ (forall f, fst (dequeue_entry after f) = None)
  /\ (forall f, peek after f = None)
  /\ (forall limit, list_tasks after limit = [])
  /\ Scheduler.redis after = Scheduler.redis self
  /\ Scheduler.tasks_enqueued (Scheduler.stats after)
     = Scheduler.tasks_enqueued (Scheduler.stats self)
  /\ tasks_dequeued (Scheduler.stats after)
     = tasks_dequeued (Scheduler.stats self)
  /\ forall tm now, score after tm now = score self tm now.
Proof.
  intros after.
  assert (Hc : contents (sched_heap after) = []).
  { subst after. unfold clear. cbn [sched_heap].
    apply Permutation_nil. symmetry. apply heapify_contents. }
  split; [exact Hc |]. split; [| split; [| split; [| split; [| split]]]].
  - unfold size_recorded. rewrite Hc. reflexivity.
  - intros f. unfold get_queue_size. rewrite Hc.
    destruct f as [[| c a] |]; reflexivity.
  - intros f. pose proof (dequeue_entry_spec after f) as Hspec.
    cbv zeta in Hspec. rewrite Hc in Hspec.
    destruct (dequeue_entry after f) as [[x |] self']; [| reflexivity].
    destruct Hspec as [Hin _]. inversion Hin.
  - intros f. unfold peek. rewrite Hc. reflexivity.
  - intros limit. unfold list_tasks. rewrite Hc.
    unfold sorted_by_score, slice_to. cbn [foldr length].
    destruct (limit <? 0)%Z; rewrite take_nil; reflexivity.
  - repeat split; reflexivity.
Qed.

Lemma zset_entries_empty : zset_entries ∅ = [].
Proof. unfold zset_entries. rewrite map_to_list_empty. reflexivity. Qed.

(** X25: [clear_all_retries] with the delay queue reachable.  Its
    answer is the number of keys deleted, hence 0 when the delay queue
    was empty and 1 otherwise, however many retries were pending.
    Afterwards no task has retry information, nothing is pending or due,
    and the runtime estimates kept in the same store are untouched. *)
Theorem clear_all_retries_spec (self : RetryTracker) (db : RedisDb) :
  r (redis self) = Some db ->
  let cleared := fst (RetryExt.clear_all_retries self) in
  let after := snd (RetryExt.clear_all_retries self) in
  cleared = (if decide (retry_q db = ∅) then 0 else 1)%nat
  /\ delay_queue after = ∅
  /\ current_pending (Retry.stats after) = 0%nat
  /\ (forall task_id now, RetryExt.get_retry_info after task_id now = None)
  /\ (forall limit now, RetryExt.list_pending_retries after limit now = [])
  /\ (forall now, fst (fetch_due_retries (redis after) now) = [])
  /\ (forall agent action default,
        get_ert (redis after) agent action default
        = get_ert (redis self) agent action default)
  /\ max_retries after = max_retries self
  /\ retries_scheduled (Retry.stats after)
     = retries_scheduled (Retry.stats self).
Proof.
  intros Hdb cleared after.
  assert (Hafter : r (redis after) = Some (mkRedisDb ∅ (ert db))).
  { subst after. unfold RetryExt.clear_all_retries. rewrite Hdb.
    reflexivity. }
  split.
  { subst cleared. unfold RetryExt.clear_all_retries. rewrite Hdb.
    reflexivity. }
  split; [unfold delay_queue; rewrite Hafter; reflexivity |].
  split.
  { subst after. unfold RetryExt.clear_all_retries. rewrite Hdb.
    reflexivity. }
  split; [| split; [| split; [| split]]].
  - intros task_id now. unfold RetryExt.get_retry_info. rewrite Hafter.
    cbn [retry_q]. rewrite lookup_empty. reflexivity.
  - intros limit now. unfold RetryExt.list_pending_retries.
    rewrite Hafter. cbn [retry_q]. rewrite zrange_from_start.
    rewrite zset_entries_empty.
    destruct (limit =? 0)%Z; [reflexivity |].
    destruct (0 <? limit)%Z; rewrite take_nil; reflexivity.
  - intros now. rewrite (fetch_due_retries_ids _ _ now Hafter).
    cbn [retry_q]. unfold zrangebyscore. rewrite zset_entries_empty.
    reflexivity.
  - intros agent action default. unfold get_ert. rewrite Hafter, Hdb.
    reflexivity.
  - subst after. unfold RetryExt.clear_all_retries. rewrite Hdb.
    split; reflexivity.
Qed.

(** ** The properties on the scenarios *)

Lemma queue_size_statistic_witness :
  size_recorded two_ready
  /\ size_recorded (snd (dequeue two_ready (Some "X"%string)))
  /\ size_recorded (snd (remove_task two_ready "low")).
Proof.
  assert (H0 : size_recorded two_ready) by (vm_compute; reflexivity).
  destruct (queue_size_statistic two_ready (mkSchedulerConfig None None None)
              (connected "scheduler") task_A 0 0 (Some "X"%string) "low" H0)
    as (_ & _ & Hd & Hr & _).
  split; [exact H0 |]. split; [exact Hd | exact Hr].
Defined.

Lemma peek_spec_witness :
  exists x,
    x ∈ contents (sched_heap two_ready)
    /\ task_meta x = prioritized "high" (9 # 10)
    /\ agent_matches "X" x = true.
Proof.
  destruct (peek_spec two_ready "X" ltac:(discriminate)) as (_ & Hsome & _).
  destruct (Hsome (prioritized "high" (9 # 10)))
    as (x & Hin & Hx & Hm & _).
  - vm_compute. reflexivity.
  - exists x. split; [exact Hin |]. split; [exact Hx | exact Hm].
Defined.

Lemma fetch_due_retries_spec_witness :
  "A"%string
  ∈ fst (fetch_due_retries (mkRedisStore (Some two_pending) "retry_tracker")
           10)
  /\ NoDup (fst (fetch_due_retries
                   (mkRedisStore (Some two_pending) "retry_tracker") 10)).
Proof.
  destruct (fetch_due_retries_spec
              (mkRedisStore (Some two_pending) "retry_tracker") two_pending
              10 eq_refl) as (Hids & Hnodup & _).
  split; [| exact Hnodup].
  apply Hids. exists 5. split; [vm_compute; reflexivity |].
  split; [discriminate | discriminate].
Defined.

Lemma schedule_then_cancel_witness :
  fst (cancel_retry
         (snd (fst (schedule default_tracker (with_retries 0)
                      (Some "timeout"%string) 1000))) "A")
  = true.
Proof.
  destruct (schedule_then_cancel default_tracker (with_retries 0)
              (Some "timeout"%string) 1000 (mkRedisDb ∅ ∅) eq_refl
              ltac:(vm_compute; lia)) as (Hc & _).
  exact Hc.
Defined.

Lemma get_retry_info_spec_witness :
  RetryExt.get_retry_info pending_tracker "C" 10 = None.
Proof.
  destruct (get_retry_info_spec pending_tracker two_pending "C" 10 eq_refl)
    as (Hnone & _).
  apply Hnone. vm_compute. reflexivity.
Defined.

Lemma list_pending_retries_spec_witness :
  length (RetryExt.list_pending_retries pending_tracker 1 10)
  = Nat.min (Z.to_nat 1) (size (retry_q two_pending)).
Proof.
  destruct (list_pending_retries_spec pending_tracker two_pending 1 10
              eq_refl) as (Hpos & _).
  destruct (Hpos ltac:(lia)) as (_ & Hlen). exact Hlen.
Defined.

Lemma retry_budget_witness :
  fst (fst (schedule_each default_tracker (with_retries 0) five_failures))
  = [true; true; true; false; false].
Proof.
  destruct (retry_budget five_failures default_tracker (with_retries 0)
              (mkRedisDb ∅ ∅) eq_refl) as (Hoks & _).
  rewrite Hoks. reflexivity.
Defined.

Lemma worker_loop_step_spec_witness :
  exists tm',
    snd (WorkerExt._worker_loop_step pool_two_ready 0
           (Worker.Response 200 "{}") (Worker.mkTicks 2 3 3 3))
    = Some tm'
    /\ tm_agent tm' = Some "X"%string.
Proof.
  destruct (worker_loop_step_spec pool_two_ready 0
              (Worker.Response 200 "{}") (Worker.mkTicks 2 3 3 3)
              ltac:(discriminate)) as (Hexec & _).
  destruct (snd (WorkerExt._worker_loop_step pool_two_ready 0
                   (Worker.Response 200 "{}") (Worker.mkTicks 2 3 3 3)))
    as [tm' |] eqn:E.
  - exists tm'. split; [reflexivity |].
    destruct (Hexec tm' eq_refl) as [Ha _]. exact Ha.
  - vm_compute in E. discriminate.
Defined.




Lemma in_memory_workflow_never_starts_witness :
  fst (start_workflow
         (set_manager in_memory_engine
            (snd (init_workflow (manager in_memory_engine) "W2" chain 6)))
         "W2" 7) = true
  /\ Manager.scheduler
       (snd (start_workflow
               (set_manager in_memory_engine
                  (snd (init_workflow (manager in_memory_engine) "W2" chain
                          6)))
               "W2" 7))
     = Manager.scheduler in_memory_engine.
Proof.
  destruct (in_memory_workflow_never_starts in_memory_engine "W2" chain 6 7
              eq_refl) as (Hok & Hs & _).
  split; [exact Hok | exact Hs].
Defined.




Lemma clear_all_retries_spec_witness :
  fst (RetryExt.clear_all_retries pending_tracker)
  = (if decide (retry_q two_pending = ∅) then 0 else 1)%nat
  /\ delay_queue (snd (RetryExt.clear_all_retries pending_tracker)) = ∅.
Proof.
  destruct (clear_all_retries_spec pending_tracker two_pending eq_refl)
    as (Hn & Hq & _).
  split; [exact Hn | exact Hq].
Defined.
